(** * The wasmvm API service (vms/wasmvm/service.go)

    A shallow embedding of the JSON-RPC service of the wasm VM: the numeric
    argument coercion [toFnArg], the request validation [validate], the
    byte-argument decoder [getByteArgs] and the three operations [Invoke],
    [CreateContract] and [GetTx], followed by the properties of the
    admission pipeline.

    Go values are modelled as follows.
    - [int32]/[int64] are [Z] with the two's-complement wrap-around of a
      narrowing conversion written out ([wrap]); [uint64] is [N].
    - [float32]/[float64] are [spec_float] (sign, mantissa, exponent).
    - [string] and [[]byte] are [string] (a sequence of bytes) and
      [list byte].
    - [interface{}] is the inductive [value], one constructor per dynamic
      type the service distinguishes.
    - an [error] is kept as the call that built it ([errors.New] with its
      text, [fmt.Errorf] with its format and operands), not as rendered text.
    - a method that reads or writes [s.vm] is a function in the monad [M],
      which threads the VM state and returns a [result]. *)

From Stdlib Require Import ZArith NArith List String Ascii Bool Lia SpecFloat.
From stdpp Require Import base option list gmap strings.
Import ListNotations.

Set Warnings "-register-all".
Local Open Scope Z_scope.

(** ** Bytes and identifiers *)

Abbreviation byte := Byte.byte.
Abbreviation bytes := (list Byte.byte).

#[global] Instance byte_eq_dec : EqDecision byte := Byte.byte_eq_dec.
#[global] Instance byte_countable : Countable byte :=
  inj_countable Byte.to_N Byte.of_N Byte.of_to_N.

(** Modelled from the spec: [ids.ID] (package ids is not part of the
    service file), "an opaque 32-byte identifier". [Empty] is the
    zero-valued identifier and [Equals] compares the bytes. *)
Record ID := mkID { ID_Bytes : bytes }.

#[global] Instance ID_eq_dec : EqDecision ID.
Proof. solve_decision. Defined.
#[global] Instance ID_countable : Countable ID :=
  inj_countable' ID_Bytes mkID (fun x => match x with mkID _ => eq_refl end).

Definition Empty : ID := mkID (repeat Byte.x00 32).

Definition Equals (id oID : ID) : bool := bool_decide (ID_Bytes id = ID_Bytes oID).

(** ** Dynamic values ([interface{}]) *)

Inductive value :=
| VNil                                   (* the nil interface *)
| VBool (b : bool)
| VInt32 (z : Z)
| VInt64 (z : Z)
| VFloat32 (f : spec_float)
| VFloat64 (f : spec_float)
| VString (s : string)
| VSlice (l : list value)                (* []interface{} *)
| VMap (m : list (string * value))       (* map[string]interface{} *)
| VOther (dynType : string).             (* a value of any other dynamic type *)

(** ArgAPI is the API repr of a function argument. Its field [Type] is
    written [Type_]. *)
Record ArgAPI := mkArgAPI { Type_ : string; Value : value }.

(** ** Errors *)

Inductive error :=
| errors_New (text : string)
| fmt_Errorf (format : string) (operands : list operand)
with operand :=
| OpValue (v : value)
| OpArg (a : ArgAPI)
| OpID (id : ID)
| OpError (e : option error).            (* [None] is a nil error operand *)

Inductive result (A : Type) :=
| Ok (a : A)
| Err (e : error).
Arguments Ok {A} a.
Arguments Err {A} e.

Definition is_Ok {A} (r : result A) : bool :=
  match r with Ok _ => true | Err _ => false end.
Definition is_Err {A} (r : result A) : bool := negb (is_Ok r).

(** ** Fixed-width integers *)

Definition in_range (w z : Z) : bool := (- 2 ^ (w - 1) <=? z) && (z <? 2 ^ (w - 1)).

(** The value of a [w]-bit two's-complement integer holding the low [w]
    bits of [z]: Go's integer narrowing conversion. *)
Definition wrap (w z : Z) : Z := (z + 2 ^ (w - 1)) mod 2 ^ w - 2 ^ (w - 1).

(** ** Floating point to integer *)

(** The integer part of a finite float, fraction discarded. *)
Definition truncate (f : spec_float) : option Z :=
  match f with
  | S754_zero _ => Some 0
  | S754_finite s m e =>
      let a := if 0 <=? e then Z.shiftl (Z.pos m) e else Z.shiftr (Z.pos m) (- e) in
      Some (if s then - a else a)
  | S754_infinity _ | S754_nan => None
  end.

(** ** What the service takes from the Go runtime and its libraries *)

Class GoRuntime := {
  (** [strings.Map(unicode.ToLower, s)], which [strings.ToLower] falls
      back to when [s] holds a byte outside ASCII. *)
  unicode_ToLower : string -> string;
  (** The result of converting a float to a [w]-bit integer when the
      truncated value is not representable (or there is none, for NaN and
      the infinities). The language leaves it to the implementation. *)
  fpconv_unrepresentable : Z -> spec_float -> Z;
  (** [encoding/json.Marshal]. *)
  encjson_Marshal : value -> result bytes;
}.

Section Runtime.
Context `{GoRuntime}.

(** A float to [w]-bit integer conversion [intW(f)]: the fraction is
    discarded; an unrepresentable result is the implementation's. *)
Definition float_to_int (w : Z) (f : spec_float) : Z :=
  match truncate f with
  | Some z => if in_range w z then z else wrap w (fpconv_unrepresentable w f)
  | None => wrap w (fpconv_unrepresentable w f)
  end.

(** [strings.ToLower]. *)
Definition isASCII (s : string) : bool :=
  forallb (fun c => (nat_of_ascii c <? 128)%nat) (list_ascii_of_string s).

Definition lower_ascii (c : ascii) : ascii :=
  let n := nat_of_ascii c in
  if ((65 <=? n) && (n <=? 90))%nat then ascii_of_nat (n + 32) else c.

Fixpoint map_ascii (f : ascii -> ascii) (s : string) : string :=
  match s with
  | EmptyString => EmptyString
  | String c s' => String (f c) (map_ascii f s')
  end.

Definition ToLower (s : string) : string :=
  if isASCII s then map_ascii lower_ascii s else unicode_ToLower s.

(** Return argument as its go type *)
Definition toFnArg (arg : ArgAPI) : result value :=
  let t := ToLower (Type_ arg) in
  if String.eqb t "int32" then
    match Value arg with
    | VInt32 valInt32 => Ok (VInt32 valInt32)
    | VInt64 valInt64 => Ok (VInt32 (wrap 32 valInt64))
    | VFloat32 valFloat32 => Ok (VInt32 (float_to_int 32 valFloat32))
    | VFloat64 valFloat64 => Ok (VInt32 (float_to_int 32 valFloat64))
    | _ => Err (fmt_Errorf "value '%v' is not convertible to int32" [OpValue (Value arg)])
    end
  else if String.eqb t "int64" then
    match Value arg with
    | VInt32 valInt32 => Ok (VInt64 valInt32)
    | VInt64 valInt64 => Ok (VInt64 valInt64)
    | VFloat32 valFloat32 => Ok (VInt64 (float_to_int 64 valFloat32))
    | VFloat64 valFloat64 => Ok (VInt64 (float_to_int 64 valFloat64))
    | _ => Err (fmt_Errorf "value '%v' is not convertible to int64" [OpValue (Value arg)])
    end
  else Err (errors_New "arg type must be one of: int32, int64").

End Runtime.

(** ** Requests *)

(** [formatting.CB58] wraps the decoded bytes of a CB58 string; a request
    field of that type is kept as its [Bytes]. *)
Class Formatting := {
  (** [formatting.CB58.FromString]: the bytes, or the decode error. *)
  CB58_FromString : string -> result bytes;
}.

(** InvokeArgs ... *)
Record InvokeArgs := mkInvokeArgs {
  ContractID : ID;            (* Contract to invoke *)
  Function : string;          (* Function in contract to invoke *)
  SenderKey : bytes;          (* Private Key signing the invocation tx *)
  SenderNonce : N;            (* Sender's next unused nonce *)
  Args : list ArgAPI;         (* Integer arguments to the function *)
  ByteArgs : value;           (* Byte arguments to the function *)
}.

Definition errBagByteArgs : error :=
  errors_New "expected 'byteArgs' to be JSON or base58 formatted bytes but was neither".

Definition validate (args : InvokeArgs) : option error :=
  if (length (SenderKey args) =? 0)%nat then
    Some (errors_New "argument 'senderKey' not provided")
  else if (SenderNonce args =? 0)%N then
    Some (errors_New "'senderNonce' must be at least 1")
  else if Equals (ContractID args) Empty then
    Some (errors_New "contractID not specified")
  else if String.eqb (Function args) "" then
    Some (errors_New "function not specified")
  else None.

Section ByteArgs.
Context `{GoRuntime} `{Formatting}.

Definition getByteArgs (args : InvokeArgs) : result bytes :=
  match ByteArgs args with
  | VNil => Ok []
  (* If byteArgs are JSON, marshal them to bytes.
     Only top-level array or object is accepted as valid JSON *)
  | VSlice _ | VMap _ =>
      match encjson_Marshal (ByteArgs args) with
      | Ok bytes => Ok bytes
      | Err _ => Err errBagByteArgs
      end
  (* Otherwise, try to parse them as base 58 string *)
  | VString asStr =>
      match CB58_FromString asStr with
      | Ok formatter_Bytes => Ok formatter_Bytes
      | Err _ =>
          Err (fmt_Errorf "expected 'byteArgs' to be JSON or base58 formatted bytes but was neither" [])
      end
  | _ => Err (fmt_Errorf "expected 'byteArgs' to be JSON or base58 formatted bytes but was neither" [])
  end.

End ByteArgs.

(** CreateContractArgs ... Its fields [SenderKey] and [SenderNonce] carry
    the prefix [CC_], the names being taken by [InvokeArgs]. *)
Record CreateContractArgs := mkCreateContractArgs {
  Contract : bytes;           (* The byte representation of the contract *)
  CC_SenderKey : bytes;       (* Byte repr. of the private key of the sender *)
  CC_SenderNonce : N;         (* Next unused nonce of the sender *)
}.

(** GetTxArgs ... Its field [ID] is written [GetTx_ID]. *)
Record GetTxArgs := mkGetTxArgs { GetTx_ID : ID }.

(** ** The VM and its collaborators *)

(** [crypto.PrivateKey] is an interface; the service asks whether the
    value behind it is a pointer to [crypto.PrivateKeySECP256K1R]. *)
Record PrivateKeySECP256K1R := mkSECP256K1R { sk : bytes }.

Inductive PrivateKey :=
| KeySECP256K1R (k : PrivateKeySECP256K1R)
| KeyOther (scheme : string)             (* any other implementation *)
| KeyNil.                                (* a nil interface *)

(** The parts of the VM package and of package crypto the service calls.
    The builders and the key factory are functions of their arguments:
    they do not touch the mempool. *)
Class Collaborators := {
  tx : Type;
  tx_ID : tx -> ID;
  (** the stored form of a transaction, and the transaction it holds *)
  txReturnValue : Type;
  receipt_Tx : txReturnValue -> tx;
  keyFactory_ToPrivateKey : bytes -> result PrivateKey;
  vm_newInvokeTx :
    ID -> string -> list value -> bytes -> N -> PrivateKeySECP256K1R -> result tx;
  vm_newCreateContractTx : bytes -> N -> PrivateKeySECP256K1R -> result tx;
}.

(** A call the service makes on a collaborator, recorded in order. *)
Inductive call :=
| CallLogDebug (msg : string)
| CallToPrivateKey (b : bytes)
| CallNewInvokeTx
| CallNewCreateContractTx
| CallNotifyBlockReady
| CallGetTx (id : ID).

#[global] Instance call_eq_dec : EqDecision call.
Proof. solve_decision. Defined.

Section Service.
Context `{GoRuntime} `{Formatting} `{Collaborators}.

Record VM := mkVM {
  mempool : list tx;                  (* txs not yet put in a block *)
  DB : gmap ID txReturnValue;         (* the persistent transaction store *)
  calls : list call;                  (* calls made so far, oldest first *)
}.

(** Code that uses [s.vm] and may return an error. The state is kept
    whether or not the result is an error: nothing is rolled back. *)
Definition M (A : Type) : Type := VM -> result A * VM.

Definition ret {A} (a : A) : M A := fun vm => (Ok a, vm).
Definition fail {A} (e : error) : M A := fun vm => (Err e, vm).
Definition bind {A B} (m : M A) (k : A -> M B) : M B :=
  fun vm =>
    match m vm with
    | (Ok a, vm') => k a vm'
    | (Err e, vm') => (Err e, vm')
    end.

Notation "'let!' x ':=' m 'in' k" := (bind m (fun x => k))
  (at level 10, x name, m at level 100, k at level 200).
Notation "'do!' m 'in' k" := (bind m (fun _ => k))
  (at level 10, m at level 100, k at level 200).

(** A result of pure code, its error wrapped with context. *)
Definition try {A} (r : result A) (wrapErr : error -> error) : M A :=
  match r with
  | Ok a => ret a
  | Err e => fail (wrapErr e)
  end.

Definition record (c : call) : M unit :=
  fun vm => (Ok tt, mkVM (mempool vm) (DB vm) (calls vm ++ [c])).

Definition Log_Debug (msg : string) : M unit := record (CallLogDebug msg).

Definition NotifyBlockReady : M unit := record CallNotifyBlockReady.

Definition ToPrivateKey (b : bytes) : M (result PrivateKey) :=
  do! record (CallToPrivateKey b) in ret (keyFactory_ToPrivateKey b).

Definition newInvokeTx (contractID : ID) (function : string) (fnArgs : list value)
    (byteArgs : bytes) (nonce : N) (senderKey : PrivateKeySECP256K1R) : M (result tx) :=
  do! record CallNewInvokeTx in
  ret (vm_newInvokeTx contractID function fnArgs byteArgs nonce senderKey).

Definition newCreateContractTx (contract : bytes) (nonce : N)
    (senderKey : PrivateKeySECP256K1R) : M (result tx) :=
  do! record CallNewCreateContractTx in
  ret (vm_newCreateContractTx contract nonce senderKey).

(** [s.vm.mempool = append(s.vm.mempool, tx)] *)
Definition appendMempool (t : tx) : M unit :=
  fun vm => (Ok tt, mkVM (mempool vm ++ [t]) (DB vm) (calls vm)).

(** The loop of [Invoke] over [args.Args]: every argument is converted in
    order, and the first failure ends the request. *)
Fixpoint parseArgs (l : list ArgAPI) : result (list value) :=
  match l with
  | [] => Ok []
  | arg :: rest =>
      match toFnArg arg with
      | Err err =>
          Err (fmt_Errorf "couldn't parse arg '%+v': %s" [OpArg arg; OpError (Some err)])
      | Ok v =>
          match parseArgs rest with
          | Ok vs => Ok (v :: vs)
          | Err e => Err e
          end
      end
  end.

(** InvokeResponse ... *)
Record InvokeResponse := mkInvokeResponse { TxID : ID }.

(** The type assertion of [senderKeyIntf] to a pointer to
    [crypto.PrivateKeySECP256K1R]. *)
Definition asSECP256K1R (k : PrivateKey) : option PrivateKeySECP256K1R :=
  match k with
  | KeySECP256K1R k => Some k
  | _ => None
  end.

(** Invoke ... *)
Definition Invoke (args : InvokeArgs) : M InvokeResponse :=
  do! Log_Debug "in invoke" in
  match validate args with
  | Some err => fail (fmt_Errorf "arguments failed validation: %v" [OpError (Some err)])
  | None =>
  let! fnArgs := try (parseArgs (Args args)) (fun e => e) in
  (* Parse byteArgs *)
  let! byteArgs := try (getByteArgs args)
                (fun err => fmt_Errorf "couldn't parse 'byteArgs': %v" [OpError (Some err)]) in
  let! r := ToPrivateKey (SenderKey args) in
  let! senderKeyIntf := try r (fun err =>
      fmt_Errorf "couldn't parse 'privateKey' to a SECP256K1R private key: %v"
        [OpError (Some err)]) in
  match asSECP256K1R senderKeyIntf with
  | None =>
      fail (fmt_Errorf "couldn't parse 'privateKey' to a SECP256K1R private key: %v"
              [OpError None])
  | Some senderKey =>
  let! r := newInvokeTx (ContractID args) (Function args) fnArgs byteArgs
         (SenderNonce args) senderKey in
  let! t := try r (fun err => fmt_Errorf "couldn't create tx: %s" [OpError (Some err)]) in
  (* Add tx to mempool *)
  do! appendMempool t in
  do! NotifyBlockReady in
  ret (mkInvokeResponse (tx_ID t))
  end
  end.

(** CreateContract creates a new contract.
    The contract's ID is the ID of the tx that creates it, which is
    returned by this method *)
Definition CreateContract (args : CreateContractArgs) : M ID :=
  do! Log_Debug "in createContract" in
  (* validation *)
  if (length (CC_SenderKey args) =? 0)%nat then
    fail (errors_New "argument 'senderKey' not given")
  else if (length (Contract args) =? 0)%nat then
    fail (errors_New "argument 'contract' not given")
  else if (CC_SenderNonce args =? 0)%N then
    fail (errors_New "argument 'senderNonce' must be at least 1")
  else
  (* Parse key *)
  let! r := ToPrivateKey (CC_SenderKey args) in
  let! senderKeyIntf := try r (fun err =>
      fmt_Errorf "couldn't parse 'senderKey' to a SECP256K1R private key: %v"
        [OpError (Some err)]) in
  match asSECP256K1R senderKeyIntf with
  | None =>
      fail (fmt_Errorf "couldn't parse 'senderKey' to a SECP256K1R private key: %v"
              [OpError None])
  | Some senderKey =>
  (* Create tx *)
  let! r := newCreateContractTx (Contract args) (CC_SenderNonce args) senderKey in
  let! t := try r (fun err => fmt_Errorf "couldn't create tx: %v" [OpError (Some err)]) in
  (* Add tx to mempool *)
  do! appendMempool t in
  do! NotifyBlockReady in
  ret (tx_ID t)
  end.

(** Modelled from the spec: [vm.getTx] and the store it reads are not part
    of the service file. "lookup(id) -> Transaction | NotFoundError. Pure
    read against an external store": the receipt stored under [id], or an
    error ([None]; [GetTx] drops the error value and builds its own). *)
Definition vm_getTx (db : gmap ID txReturnValue) (id : ID) : option txReturnValue :=
  db !! id.

Definition getTx (id : ID) : M (option txReturnValue) :=
  do! record (CallGetTx id) in (fun vm => (Ok (vm_getTx (DB vm) id), vm)).

(** GetTxResponse ... *)
Record GetTxResponse := mkGetTxResponse { Tx : txReturnValue }.

(** GetTx returns a tx by its ID *)
Definition GetTx (args : GetTxArgs) : M GetTxResponse :=
  let! r := getTx (GetTx_ID args) in
  match r with
  | None => fail (fmt_Errorf "couldn't find tx with ID %s" [OpID (GetTx_ID args)])
  | Some t => ret (mkGetTxResponse t)
  end.

(** The VM after the calls [cs] and nothing else. *)
Definition after (cs : list call) (vm : VM) : VM :=
  mkVM (mempool vm) (DB vm) (calls vm ++ cs).

(** The calls made between the state [vm] and the later state [vm']. *)
Definition made (vm vm' : VM) : list call := drop (length (calls vm)) (calls vm').

(** The sender-key bytes do not give a SECP256K1R key: the factory
    rejects them, or returns a key of another type. *)
Definition key_unusable (b : bytes) : Prop :=
  match keyFactory_ToPrivateKey b with
  | Err _ => True
  | Ok k => asSECP256K1R k = None
  end.

(** The error operand of the key-parse error: the factory's error, or nil
    when the factory returned a key. *)
Definition key_error (b : bytes) : option error :=
  match keyFactory_ToPrivateKey b with
  | Err e => Some e
  | Ok _ => None
  end.




(** Some step of [Invoke] before admission fails on the request. *)
Definition Invoke_step_fails (args : InvokeArgs) : Prop :=
  validate args <> None \/
  is_Err (parseArgs (Args args)) = true \/
  is_Err (getByteArgs args) = true \/
  key_unusable (SenderKey args) \/
  exists fnArgs byteArgs senderKey,
    parseArgs (Args args) = Ok fnArgs /\ getByteArgs args = Ok byteArgs /\
    keyFactory_ToPrivateKey (SenderKey args) = Ok (KeySECP256K1R senderKey) /\
    is_Err (vm_newInvokeTx (ContractID args) (Function args) fnArgs byteArgs
              (SenderNonce args) senderKey) = true.

(** Some step of [CreateContract] before admission fails on the request. *)
Definition CreateContract_step_fails (args : CreateContractArgs) : Prop :=
  CC_SenderKey args = [] \/ Contract args = [] \/ CC_SenderNonce args = 0%N \/
  key_unusable (CC_SenderKey args) \/
  exists senderKey,
    keyFactory_ToPrivateKey (CC_SenderKey args) = Ok (KeySECP256K1R senderKey) /\
    is_Err (vm_newCreateContractTx (Contract args) (CC_SenderNonce args) senderKey) = true.

End Service.

(** ** A concrete runtime and concrete collaborators

    Used to run the service on explicit requests. *)

(** Go on amd64: a float to integer conversion whose result is not
    representable gives the "integer indefinite" value, the most negative
    integer of the width. The JSON encoder and the Unicode tables are
    cut down to what the examples need. *)
Definition amd64 : GoRuntime := {|
  unicode_ToLower := fun s => s;
  fpconv_unrepresentable := fun w _ => - 2 ^ (w - 1);
  encjson_Marshal := fun v =>
    match v with
    | VSlice [] => Ok [Byte.x5b; Byte.x5d]          (* [] *)
    | VMap [] => Ok [Byte.x7b; Byte.x7d]            (* {} *)
    | _ => Err (errors_New "json: unsupported value")
    end;
|}.

(** A codec that decodes a single string, to the empty byte sequence. *)
Definition emptyCodec : Formatting := {|
  CB58_FromString := fun s =>
    if String.eqb s "45PJLL" then Ok [] else Err (errors_New "invalid input checksum");
|}.

(** Transactions that hold their identifier and nonce, a key factory that
    takes 32-byte keys as SECP256K1R keys, one-byte keys as keys of
    another scheme and nothing else, and builders that fail on an empty
    function name or on a contract without the wasm magic byte. *)
Record demoTx := mkDemoTx { demoID : ID; demoNonce : N }.

Definition demo : Collaborators := {|
  tx := demoTx;
  tx_ID := demoID;
  txReturnValue := demoTx;
  receipt_Tx := fun r => r;
  keyFactory_ToPrivateKey := fun b =>
    if (length b =? 32)%nat then Ok (KeySECP256K1R (mkSECP256K1R b))
    else if (length b =? 1)%nat then Ok (KeyOther "ed25519")
    else Err (errors_New "couldn't parse private key");
  vm_newInvokeTx := fun contractID function _ _ nonce _ =>
    if String.eqb function "" then Err (errors_New "no function")
    else Ok (mkDemoTx contractID nonce);
  vm_newCreateContractTx := fun contract nonce _ =>
    match contract with
    | Byte.x00 :: _ => Ok (mkDemoTx (mkID contract) nonce)
    | _ => Err (errors_New "not a wasm module")
    end;
|}.

Definition key32 : bytes := repeat Byte.x01 32.
Definition id7 : ID := mkID (repeat Byte.x07 32).
Definition vm0 : @VM demo := @mkVM demo [] ∅ [].

(** 2.75, -2.75 and 3e9 as binary64 values. *)
Definition f2_75 : spec_float := S754_finite false 6192449487634432 (-51).
Definition fm2_75 : spec_float := S754_finite true 6192449487634432 (-51).
Definition f3e9 : spec_float := S754_finite false 6291456000000000 (-21).

(** ** What an error says *)

Definition error_text (e : error) : string :=
  match e with
  | errors_New text => text
  | fmt_Errorf format _ => format
  end.

Definition error_operands (e : error) : list operand :=
  match e with
  | errors_New _ => []
  | fmt_Errorf _ operands => operands
  end.

Definition contains (s sub : string) : bool :=
  match String.index 0 sub s with
  | Some _ => true
  | None => false
  end.

(** The error carries the value [v] as an operand of its message. *)
Definition names_value (e : error) (v : value) : Prop := In (OpValue v) (error_operands e).

(** The text of the error spells the type name [t]. *)
Definition names_type (e : error) (t : string) : bool := contains (error_text e) t.

(** [z] is the float [f] with its fraction discarded: same sign, and
    [|z| <= |f| < |z| + 1]. *)
Definition truncated_toward_zero (f : spec_float) (z : Z) : Prop :=
  match f with
  | S754_zero _ => z = 0
  | S754_finite s m e =>
      (if s then z <= 0 else 0 <= z) /\
      if 0 <=? e then Z.abs z = Z.pos m * 2 ^ e
      else Z.abs z * 2 ^ (- e) <= Z.pos m < (Z.abs z + 1) * 2 ^ (- e)
  | S754_infinity _ | S754_nan => False
  end.

(** A top-level JSON array or object. *)
Definition is_container (v : value) : bool :=
  match v with
  | VSlice _ | VMap _ => true
  | _ => false
  end.

(** The truncated value of [f] does not fit [w] bits, or [f] has none. *)
Definition unrepresentable (w : Z) (f : spec_float) : Prop :=
  match truncate f with
  | Some z => in_range w z = false
  | None => True
  end.

(** ** Requests in sequence *)

(** A value as the Go type system keeps it: an [int32] within 32 bits, an
    [int64] within 64 bits. *)
Definition well_formed (v : value) : Prop :=
  match v with
  | VInt32 z => in_range 32 z = true
  | VInt64 z => in_range 64 z = true
  | _ => True
  end.

(** The step of [Invoke] an error comes from, read off its text. *)
Inductive step := Validation | ArgumentCoercion | ByteArgsDecoding | KeyParsing | TxBuild.

Definition failed_step (e : error) : option step :=
  let t := error_text e in
  if String.eqb t "arguments failed validation: %v" then Some Validation
  else if String.eqb t "couldn't parse arg '%+v': %s" then Some ArgumentCoercion
  else if String.eqb t "couldn't parse 'byteArgs': %v" then Some ByteArgsDecoding
  else if String.eqb t "couldn't parse 'privateKey' to a SECP256K1R private key: %v"
  then Some KeyParsing
  else if String.eqb t "couldn't create tx: %s" then Some TxBuild
  else None.

(** A request to one of the three operations that use the VM. *)
Inductive request :=
| ReqInvoke (args : InvokeArgs)
| ReqCreateContract (args : CreateContractArgs)
| ReqGetTx (args : GetTxArgs).

Section Sequences.
Context `{GoRuntime} `{Formatting} `{Collaborators}.

(** One request served: the transaction identifier handed back to the
    caller when the operation admitted a transaction, and the VM
    afterwards. *)
Definition serve (r : request) (vm : VM) : option ID * VM :=
  match r with
  | ReqInvoke args =>
      match Invoke args vm with
      | (Ok response, vm') => (Some (TxID response), vm')
      | (Err _, vm') => (None, vm')
      end
  | ReqCreateContract args =>
      match CreateContract args vm with
      | (Ok response, vm') => (Some response, vm')
      | (Err _, vm') => (None, vm')
      end
  | ReqGetTx args => (None, snd (GetTx args vm))
  end.

(** Requests served one after the other: the identifiers handed back, in
    the order of the requests, and the VM at the end. *)
Fixpoint serveAll (rs : list request) (vm : VM) : list ID * VM :=
  match rs with
  | [] => ([], vm)
  | r :: rs' =>
      let '(o, vm1) := serve r vm in
      let '(ids, vm2) := serveAll rs' vm1 in
      (match o with Some id => id :: ids | None => ids end, vm2)
  end.

(** What serving requests does to the VM: the store is left alone, calls
    are added at the end of the log, and transactions are added at the end
    of the mempool, one for each identifier handed back and one for each
    notification. *)
Definition effect (ids : list ID) (vm vm' : VM) : Prop :=
  DB vm' = DB vm /\
  exists cs ts,
    calls vm' = calls vm ++ cs /\
    mempool vm' = mempool vm ++ ts /\
    map tx_ID ts = ids /\
    count_occ call_eq_dec cs CallNotifyBlockReady = length ts.

End Sequences.

(** The spellings of a type tag over ASCII: the letters of "int" in
    either case, followed by the digits. *)
Definition int_tag_spelling (digits t : string) : Prop :=
  exists c1 c2 c3 : ascii,
    t = String c1 (String c2 (String c3 digits)) /\
    (c1 = "i" \/ c1 = "I")%char /\ (c2 = "n" \/ c2 = "N")%char /\
    (c3 = "t" \/ c3 = "T")%char.

(** * Properties *)

(** ** Fixed-width arithmetic *)

Lemma pow2_half (w : Z) : 0 < w -> 2 ^ w = 2 * 2 ^ (w - 1).
Proof.
  intros Hw. replace w with (Z.succ (w - 1)) at 1 by lia.
  apply Z.pow_succ_r. lia.
Qed.

Lemma wrap_in_range (w z : Z) : 0 < w -> in_range w (wrap w z) = true.
Proof.
  intros Hw. unfold in_range, wrap.
  pose proof (pow2_half w Hw) as Hp.
  assert (0 < 2 ^ (w - 1)) by (apply Z.pow_pos_nonneg; lia).
  pose proof (Z.mod_pos_bound (z + 2 ^ (w - 1)) (2 ^ w) ltac:(lia)).
  apply andb_true_intro. split; [apply Z.leb_le | apply Z.ltb_lt]; lia.
Qed.

Lemma wrap_small (w z : Z) : 0 < w -> in_range w z = true -> wrap w z = z.
Proof.
  intros Hw Hr. unfold in_range in Hr. apply andb_prop in Hr as [Hl Hu].
  apply Z.leb_le in Hl. apply Z.ltb_lt in Hu.
  unfold wrap. pose proof (pow2_half w Hw).
  rewrite Z.mod_small by lia. lia.
Qed.

Lemma wrap_congruent (w z : Z) : 0 < w -> (wrap w z - z) mod 2 ^ w = 0.
Proof.
  intros Hw. unfold wrap.
  assert (0 < 2 ^ w) by (apply Z.pow_pos_nonneg; lia).
  rewrite (Z.mod_eq (z + 2 ^ (w - 1)) (2 ^ w)) by lia.
  replace (z + 2 ^ (w - 1) - 2 ^ w * ((z + 2 ^ (w - 1)) / 2 ^ w) - 2 ^ (w - 1) - z)
    with (- ((z + 2 ^ (w - 1)) / 2 ^ w) * 2 ^ w) by ring.
  apply Z.mod_mul. lia.
Qed.

Lemma truncate_toward_zero (f : spec_float) (z : Z) :
  truncate f = Some z -> truncated_toward_zero f z.
Proof.
  destruct f as [s | s | | s m e]; simpl; try discriminate.
  - intros [= <-]. reflexivity.
  - intros [= <-].
    assert (Ha : 0 <= (if 0 <=? e then Z.shiftl (Z.pos m) e else Z.shiftr (Z.pos m) (- e))).
    { destruct (0 <=? e); [apply Z.shiftl_nonneg | apply Z.shiftr_nonneg]; lia. }
    split; [destruct s; lia |].
    replace (Z.abs (if s then - _ else _))
      with (if 0 <=? e then Z.shiftl (Z.pos m) e else Z.shiftr (Z.pos m) (- e))
      by (destruct s; lia).
    destruct (0 <=? e) eqn:He.
    + apply Z.leb_le in He. apply Z.shiftl_mul_pow2. lia.
    + apply Z.leb_gt in He. rewrite Z.shiftr_div_pow2 by lia.
      assert (0 < 2 ^ (- e)) by (apply Z.pow_pos_nonneg; lia).
      pose proof (Z.div_mod (Z.pos m) (2 ^ (- e)) ltac:(lia)).
      pose proof (Z.mod_pos_bound (Z.pos m) (2 ^ (- e)) ltac:(lia)).
      nia.
Qed.

(** ** Numeric argument coercion *)

Section Coercion.
Context `{GoRuntime}.

Lemma float_to_int_in_range (w : Z) (f : spec_float) :
  0 < w -> in_range w (float_to_int w f) = true.
Proof.
  intros Hw. unfold float_to_int.
  destruct (truncate f) as [z |]; [destruct (in_range w z) eqn:Hz |];
    auto using wrap_in_range.
Qed.

Lemma float_to_int_exact (w : Z) (f : spec_float) (z : Z) :
  truncate f = Some z -> in_range w z = true -> float_to_int w f = z.
Proof. intros Ht Hz. unfold float_to_int. now rewrite Ht, Hz. Qed.

Lemma float_to_int_unrepresentable (w : Z) (f : spec_float) :
  unrepresentable w f -> float_to_int w f = wrap w (fpconv_unrepresentable w f).
Proof.
  unfold unrepresentable, float_to_int.
  destruct (truncate f) as [z |]; [intros -> |]; reflexivity.
Qed.

(** What [toFnArg] answers under a tag of width [w] for a float. *)
Lemma float_coercion (w : Z) (f : spec_float) :
  0 < w ->
  in_range w (float_to_int w f) = true /\
  forall z, truncate f = Some z ->
    truncated_toward_zero f z /\ (in_range w z = true -> float_to_int w f = z).
Proof.
  intros Hw. split; [now apply float_to_int_in_range |].
  intros z Ht. split; [now apply truncate_toward_zero | now apply float_to_int_exact].
Qed.

Ltac under_tag Ht := unfold toFnArg; rewrite Ht; cbn [String.eqb Ascii.eqb Bool.eqb].

(** C4, as amended. Under a tag that lower-cases to int32 or int64, a
    32-bit or 64-bit integer or float is always converted: integers are
    narrowed or widened, floats lose their fraction (toward zero) whenever
    the result fits; a value of any other representation is refused with
    an error that carries the value and spells the type. Under any other
    tag the error is the fixed text listing the two accepted types; it
    carries no operand. *)
Theorem toFnArg_coercion (arg : ArgAPI) :
  (ToLower (Type_ arg) = "int32"%string ->
     match Value arg with
     | VInt32 z => toFnArg arg = Ok (VInt32 z)
     | VInt64 z =>
         toFnArg arg = Ok (VInt32 (wrap 32 z)) /\ (in_range 32 z = true -> wrap 32 z = z)
     | VFloat32 f | VFloat64 f =>
         exists r, toFnArg arg = Ok (VInt32 r) /\ in_range 32 r = true /\
           forall z, truncate f = Some z ->
             truncated_toward_zero f z /\ (in_range 32 z = true -> r = z)
     | v =>
         exists e, toFnArg arg = Err e /\ names_value e v /\ names_type e "int32" = true
     end) /\
  (ToLower (Type_ arg) = "int64"%string ->
     match Value arg with
     | VInt32 z => toFnArg arg = Ok (VInt64 z)
     | VInt64 z => toFnArg arg = Ok (VInt64 z)
     | VFloat32 f | VFloat64 f =>
         exists r, toFnArg arg = Ok (VInt64 r) /\ in_range 64 r = true /\
           forall z, truncate f = Some z ->
             truncated_toward_zero f z /\ (in_range 64 z = true -> r = z)
     | v =>
         exists e, toFnArg arg = Err e /\ names_value e v /\ names_type e "int64" = true
     end) /\
  (ToLower (Type_ arg) <> "int32"%string -> ToLower (Type_ arg) <> "int64"%string ->
     toFnArg arg = Err (errors_New "arg type must be one of: int32, int64")).
Proof.
  split; [| split].
  - intros Ht. under_tag Ht.
    destruct (Value arg) eqn:Hv; try (eexists; split; [reflexivity |]; split;
      [left; reflexivity | reflexivity]).
    + reflexivity.
    + split; [reflexivity | apply wrap_small; lia].
    + eexists. split; [reflexivity |]. apply float_coercion. lia.
    + eexists. split; [reflexivity |]. apply float_coercion. lia.
  - intros Ht. under_tag Ht.
    destruct (Value arg) eqn:Hv; try (eexists; split; [reflexivity |]; split;
      [left; reflexivity | reflexivity]).
    + reflexivity.
    + reflexivity.
    + eexists. split; [reflexivity |]. apply float_coercion. lia.
    + eexists. split; [reflexivity |]. apply float_coercion. lia.
  - intros H32 H64. unfold toFnArg.
    destruct (String.eqb_spec (ToLower (Type_ arg)) "int32"); [contradiction |].
    destruct (String.eqb_spec (ToLower (Type_ arg)) "int64"); [contradiction |].
    reflexivity.
Qed.

(** C10, as amended. Under tag int32 a value outside the 32-bit range is
    never refused. A 64-bit integer is reduced modulo 2^32 into the signed
    range. A float becomes the 32-bit integer the implementation's
    conversion gives for an unrepresentable result, whatever that is. *)
Theorem toFnArg_int32_out_of_range (arg : ArgAPI) :
  ToLower (Type_ arg) = "int32"%string ->
  match Value arg with
  | VInt64 z =>
      in_range 32 z = false ->
      toFnArg arg = Ok (VInt32 (wrap 32 z)) /\
      in_range 32 (wrap 32 z) = true /\ (wrap 32 z - z) mod 2 ^ 32 = 0
  | VFloat32 f | VFloat64 f =>
      unrepresentable 32 f ->
      toFnArg arg = Ok (VInt32 (wrap 32 (fpconv_unrepresentable 32 f))) /\
      in_range 32 (wrap 32 (fpconv_unrepresentable 32 f)) = true
  | _ => True
  end.
Proof.
  intros Ht. under_tag Ht.
  destruct (Value arg) eqn:Hv; try exact I.
  - intros _. split; [reflexivity |]. split; [apply wrap_in_range | apply wrap_congruent]; lia.
  - intros Hu. rewrite (float_to_int_unrepresentable 32 f Hu).
    split; [reflexivity | apply wrap_in_range; lia].
  - intros Hu. rewrite (float_to_int_unrepresentable 32 f Hu).
    split; [reflexivity | apply wrap_in_range; lia].
Qed.

End Coercion.

(** The tags that lower-case to int32, letter by letter. *)
Lemma lower_ascii_letter (c l u : ascii) :
  lower_ascii u = l -> lower_ascii l = l -> (c = l \/ c = u) -> lower_ascii c = l.
Proof. intros Hu Hl [-> | ->]; assumption. Qed.

Lemma ToLower_int32_variants `{GoRuntime} (c1 c2 c3 : ascii) :
  (c1 = "i" \/ c1 = "I")%char -> (c2 = "n" \/ c2 = "N")%char -> (c3 = "t" \/ c3 = "T")%char ->
  ToLower (String c1 (String c2 (String c3 "32"))) = "int32"%string.
Proof.
  intros H1 H2 H3. unfold ToLower.
  replace (isASCII _) with true
    by (destruct H1 as [-> | ->], H2 as [-> | ->], H3 as [-> | ->]; reflexivity).
  cbn [map_ascii].
  rewrite (lower_ascii_letter c1 "i" "I"), (lower_ascii_letter c2 "n" "N"),
    (lower_ascii_letter c3 "t" "T") by (reflexivity || assumption).
  reflexivity.
Qed.

(** -2.75 under tag INT32 is -2: the fraction is dropped, the value is
    neither rounded to -3 nor floored. *)
Lemma toFnArg_coercion_witness :
  @toFnArg amd64 (mkArgAPI "INT32" (VFloat64 fm2_75)) = Ok (VInt32 (-2)) /\
  @toFnArg amd64 (mkArgAPI "Int64" (VInt32 7)) = Ok (VInt64 7) /\
  @toFnArg amd64 (mkArgAPI "uint8" (VInt32 7))
    = Err (errors_New "arg type must be one of: int32, int64").
Proof.
  split; [| split].
  - destruct (@toFnArg_coercion amd64 (mkArgAPI "INT32" (VFloat64 fm2_75))) as [H32 _].
    destruct (H32 eq_refl) as (r & Hr & _ & Hz).
    destruct (Hz (-2) eq_refl) as [_ Hz2].
    rewrite Hr, (Hz2 eq_refl). reflexivity.
  - destruct (@toFnArg_coercion amd64 (mkArgAPI "Int64" (VInt32 7))) as (_ & H64 & _).
    exact (H64 eq_refl).
  - destruct (@toFnArg_coercion amd64 (mkArgAPI "uint8" (VInt32 7))) as (_ & _ & Hother).
    apply Hother; discriminate.
Defined.

(** C4 as stated fails at an unrecognized tag: the argument
    [{type: "float64", value: "abc"}] is refused with the fixed text, which
    carries no operand and does not spell the declared type. It also
    fails for a float that does not fit: on amd64 the 64-bit float 3e9
    under tag int32 becomes -2147483648, which is not 3e9 truncated. *)
Lemma toFnArg_unknown_tag_names_nothing :
  @toFnArg amd64 (mkArgAPI "float64" (VString "abc"))
    = Err (errors_New "arg type must be one of: int32, int64") /\
  ~ names_value (errors_New "arg type must be one of: int32, int64") (VString "abc") /\
  names_type (errors_New "arg type must be one of: int32, int64") "float64" = false /\
  contains "arg type must be one of: int32, int64" "abc" = false /\
  @toFnArg amd64 (mkArgAPI "int32" (VFloat64 f3e9)) = Ok (VInt32 (-2147483648)) /\
  ~ truncated_toward_zero f3e9 (-2147483648).
Proof.
  split; [reflexivity |]. split; [intros [] |]. do 3 (split; [reflexivity |]).
  intros [Hsign _]. simpl in Hsign. lia.
Qed.

(** The 64-bit integer 3000000000 under tag int32 becomes -1294967296;
    the 64-bit float 3e9 becomes what the runtime gives. *)
Lemma toFnArg_int32_out_of_range_witness :
  in_range 32 3000000000 = false /\
  @toFnArg amd64 (mkArgAPI "int32" (VInt64 3000000000)) = Ok (VInt32 (-1294967296)) /\
  unrepresentable 32 f3e9 /\
  @toFnArg amd64 (mkArgAPI "Int32" (VFloat64 f3e9))
    = Ok (VInt32 (wrap 32 (@fpconv_unrepresentable amd64 32 f3e9))).
Proof.
  split; [reflexivity |]. split; [| split; [reflexivity |]].
  - exact (proj1 (@toFnArg_int32_out_of_range amd64
                    (mkArgAPI "int32" (VInt64 3000000000)) eq_refl eq_refl)).
  - exact (proj1 (@toFnArg_int32_out_of_range amd64
                    (mkArgAPI "Int32" (VFloat64 f3e9)) eq_refl eq_refl)).
Defined.

(** C10 as stated fails for floats: on amd64 the 64-bit float 3e9 under
    tag int32 becomes -2147483648, while 3000000000 reduced modulo 2^32
    into the signed range is -1294967296. *)
Lemma toFnArg_float_out_of_range_not_wrapped :
  truncate f3e9 = Some 3000000000 /\
  in_range 32 3000000000 = false /\
  @toFnArg amd64 (mkArgAPI "int32" (VFloat64 f3e9)) = Ok (VInt32 (-2147483648)) /\
  wrap 32 3000000000 = -1294967296 /\
  @toFnArg amd64 (mkArgAPI "int32" (VFloat64 f3e9)) <> Ok (VInt32 (wrap 32 3000000000)).
Proof. repeat split. discriminate. Qed.

(** ** Byte-argument decoding *)

Section Decoding.
Context `{GoRuntime} `{Formatting}.

Lemma getByteArgs_container (args : InvokeArgs) :
  is_container (ByteArgs args) = true ->
  getByteArgs args =
    match encjson_Marshal (ByteArgs args) with
    | Ok b => Ok b
    | Err _ => Err errBagByteArgs
    end.
Proof. unfold getByteArgs. destruct (ByteArgs args); try discriminate; reflexivity. Qed.

(** C1. [getByteArgs] resolves the byteArgs field by cases. A nil value
    is the empty byte sequence. An array or object is what the JSON
    encoder gives for it (the fixed error [errBagByteArgs] should the
    encoder fail), whatever the CB58 codec is: that branch never consults
    it. Anything else succeeds only as a string the CB58 codec decodes, to
    the decoded bytes; a string the codec refuses and a value of any other
    form are errors. *)
Theorem getByteArgs_resolution (args : InvokeArgs) :
  (ByteArgs args = VNil -> getByteArgs args = Ok []) /\
  (is_container (ByteArgs args) = true ->
     (forall b, encjson_Marshal (ByteArgs args) = Ok b -> getByteArgs args = Ok b) /\
     (is_Err (encjson_Marshal (ByteArgs args)) = true -> getByteArgs args = Err errBagByteArgs) /\
     (forall codec : Formatting, @getByteArgs _ codec args = getByteArgs args)) /\
  (forall asStr, ByteArgs args = VString asStr ->
     (forall b, CB58_FromString asStr = Ok b -> getByteArgs args = Ok b) /\
     (is_Err (CB58_FromString asStr) = true -> is_Err (getByteArgs args) = true)) /\
  (forall b, ByteArgs args <> VNil -> is_container (ByteArgs args) = false ->
     getByteArgs args = Ok b ->
     exists asStr, ByteArgs args = VString asStr /\ CB58_FromString asStr = Ok b) /\
  (ByteArgs args <> VNil -> is_container (ByteArgs args) = false ->
     (forall asStr, ByteArgs args <> VString asStr) ->
     is_Err (getByteArgs args) = true).
Proof.
  split; [| split; [| split; [| split]]].
  - intros Hv. unfold getByteArgs. now rewrite Hv.
  - intros Hc. split; [| split].
    + intros b Hb. rewrite getByteArgs_container, Hb by assumption. reflexivity.
    + intros Hb. rewrite getByteArgs_container by assumption.
      destruct (encjson_Marshal (ByteArgs args)); [discriminate | reflexivity].
    + intros codec. unfold getByteArgs.
      destruct (ByteArgs args); try discriminate; reflexivity.
  - intros asStr Hv. split.
    + intros b Hb. unfold getByteArgs. now rewrite Hv, Hb.
    + intros Hb. unfold getByteArgs. rewrite Hv.
      destruct (CB58_FromString asStr); [discriminate | reflexivity].
  - intros b Hnil Hc. unfold getByteArgs.
    destruct (ByteArgs args) as [| | | | | | s | | |] eqn:Hv;
      try discriminate; try contradiction.
    destruct (CB58_FromString s) as [b' |] eqn:Hs; [| discriminate].
    intros [= <-]. now exists s.
  - intros Hnil Hc Hs. unfold getByteArgs.
    destruct (ByteArgs args) as [| | | | | | s | | |] eqn:Hv;
      try discriminate; try contradiction; try reflexivity.
    now destruct (Hs s).
Qed.

End Decoding.

(** An empty JSON array, an absent value and a number as byteArgs. *)
Lemma getByteArgs_resolution_witness :
  @getByteArgs amd64 emptyCodec (mkInvokeArgs id7 "f" key32 1 [] (VSlice []))
    = Ok [Byte.x5b; Byte.x5d] /\
  @getByteArgs amd64 emptyCodec (mkInvokeArgs id7 "f" key32 1 [] VNil) = Ok [] /\
  @getByteArgs amd64 emptyCodec (mkInvokeArgs id7 "f" key32 1 [] (VString "45PJLL")) = Ok [].
Proof.
  split; [| split].
  - destruct (@getByteArgs_resolution amd64 emptyCodec
                (mkInvokeArgs id7 "f" key32 1 [] (VSlice []))) as (_ & Hc & _).
    destruct (Hc eq_refl) as (Hm & _). exact (Hm _ eq_refl).
  - destruct (@getByteArgs_resolution amd64 emptyCodec
                (mkInvokeArgs id7 "f" key32 1 [] VNil)) as (Hn & _).
    exact (Hn eq_refl).
  - destruct (@getByteArgs_resolution amd64 emptyCodec
                (mkInvokeArgs id7 "f" key32 1 [] (VString "45PJLL"))) as (_ & _ & Hs & _).
    destruct (Hs _ eq_refl) as (Hd & _). exact (Hd _ eq_refl).
Defined.

(** ** The admission pipeline *)

Section Admission.
Context `{GoRuntime} `{Formatting} `{Collaborators}.

Lemma made_after (cs : list call) (vm : VM) : made vm (after cs vm) = cs.
Proof. unfold made, after. cbn [calls]. apply drop_app_length. Qed.

Lemma made_append (cs : list call) (vm : VM) (ts : list tx) :
  made vm (mkVM (mempool vm ++ ts) (DB vm) (calls vm ++ cs)) = cs.
Proof. unfold made. cbn [calls]. apply drop_app_length. Qed.

Ltac run_service :=
  unfold Invoke, CreateContract, GetTx, getTx, ToPrivateKey, newInvokeTx,
    newCreateContractTx, Log_Debug, NotifyBlockReady, appendMempool, record,
    bind, try, ret, fail, after;
  cbn [mempool DB calls].

Ltac tidy_calls := cbn [mempool DB calls]; rewrite <- ?app_assoc; cbn [app].

(** [Invoke], step by step: the result and the state each outcome of each
    step leads to. *)
Lemma Invoke_run (args : InvokeArgs) (vm : VM) :
  Invoke args vm =
    match validate args with
    | Some err =>
        (Err (fmt_Errorf "arguments failed validation: %v" [OpError (Some err)]),
         after [CallLogDebug "in invoke"] vm)
    | None =>
    match parseArgs (Args args) with
    | Err e => (Err e, after [CallLogDebug "in invoke"] vm)
    | Ok fnArgs =>
    match getByteArgs args with
    | Err err =>
        (Err (fmt_Errorf "couldn't parse 'byteArgs': %v" [OpError (Some err)]),
         after [CallLogDebug "in invoke"] vm)
    | Ok byteArgs =>
    match keyFactory_ToPrivateKey (SenderKey args) with
    | Err err =>
        (Err (fmt_Errorf "couldn't parse 'privateKey' to a SECP256K1R private key: %v"
                [OpError (Some err)]),
         after [CallLogDebug "in invoke"; CallToPrivateKey (SenderKey args)] vm)
    | Ok senderKeyIntf =>
    match asSECP256K1R senderKeyIntf with
    | None =>
        (Err (fmt_Errorf "couldn't parse 'privateKey' to a SECP256K1R private key: %v"
                [OpError None]),
         after [CallLogDebug "in invoke"; CallToPrivateKey (SenderKey args)] vm)
    | Some senderKey =>
    match vm_newInvokeTx (ContractID args) (Function args) fnArgs byteArgs
            (SenderNonce args) senderKey with
    | Err err =>
        (Err (fmt_Errorf "couldn't create tx: %s" [OpError (Some err)]),
         after [CallLogDebug "in invoke"; CallToPrivateKey (SenderKey args);
                CallNewInvokeTx] vm)
    | Ok t =>
        (Ok (mkInvokeResponse (tx_ID t)),
         mkVM (mempool vm ++ [t]) (DB vm)
           (calls vm ++ [CallLogDebug "in invoke"; CallToPrivateKey (SenderKey args);
                         CallNewInvokeTx; CallNotifyBlockReady]))
    end end end end end end.
Proof.
  run_service.
  destruct (validate args); [reflexivity |].
  destruct (parseArgs (Args args)); [| reflexivity].
  destruct (getByteArgs args); [| reflexivity]. tidy_calls.
  destruct (keyFactory_ToPrivateKey (SenderKey args)); [| reflexivity].
  destruct (asSECP256K1R _); [| reflexivity]. tidy_calls.
  destruct (vm_newInvokeTx _ _ _ _ _ _); tidy_calls; reflexivity.
Qed.

(** [CreateContract], step by step. *)
Lemma CreateContract_run (args : CreateContractArgs) (vm : VM) :
  CreateContract args vm =
    if (length (CC_SenderKey args) =? 0)%nat then
      (Err (errors_New "argument 'senderKey' not given"),
       after [CallLogDebug "in createContract"] vm)
    else if (length (Contract args) =? 0)%nat then
      (Err (errors_New "argument 'contract' not given"),
       after [CallLogDebug "in createContract"] vm)
    else if (CC_SenderNonce args =? 0)%N then
      (Err (errors_New "argument 'senderNonce' must be at least 1"),
       after [CallLogDebug "in createContract"] vm)
    else
    match keyFactory_ToPrivateKey (CC_SenderKey args) with
    | Err err =>
        (Err (fmt_Errorf "couldn't parse 'senderKey' to a SECP256K1R private key: %v"
                [OpError (Some err)]),
         after [CallLogDebug "in createContract"; CallToPrivateKey (CC_SenderKey args)] vm)
    | Ok senderKeyIntf =>
    match asSECP256K1R senderKeyIntf with
    | None =>
        (Err (fmt_Errorf "couldn't parse 'senderKey' to a SECP256K1R private key: %v"
                [OpError None]),
         after [CallLogDebug "in createContract"; CallToPrivateKey (CC_SenderKey args)] vm)
    | Some senderKey =>
    match vm_newCreateContractTx (Contract args) (CC_SenderNonce args) senderKey with
    | Err err =>
        (Err (fmt_Errorf "couldn't create tx: %v" [OpError (Some err)]),
         after [CallLogDebug "in createContract"; CallToPrivateKey (CC_SenderKey args);
                CallNewCreateContractTx] vm)
    | Ok t =>
        (Ok (tx_ID t),
         mkVM (mempool vm ++ [t]) (DB vm)
           (calls vm ++ [CallLogDebug "in createContract";
                         CallToPrivateKey (CC_SenderKey args);
                         CallNewCreateContractTx; CallNotifyBlockReady]))
    end end end.
Proof.
  run_service.
  destruct (length (CC_SenderKey args) =? 0)%nat; [reflexivity |].
  destruct (length (Contract args) =? 0)%nat; [reflexivity |].
  destruct (CC_SenderNonce args =? 0)%N; [reflexivity |]. tidy_calls.
  destruct (keyFactory_ToPrivateKey (CC_SenderKey args)); [| reflexivity].
  destruct (asSECP256K1R _); [| reflexivity]. tidy_calls.
  destruct (vm_newCreateContractTx _ _ _); tidy_calls; reflexivity.
Qed.

Lemma asSECP256K1R_Some (k : PrivateKey) (senderKey : PrivateKeySECP256K1R) :
  asSECP256K1R k = Some senderKey -> k = KeySECP256K1R senderKey.
Proof. destruct k; simpl; congruence. Qed.

Lemma length_eqb_0 {A} (l : list A) : (length l =? 0)%nat = true <-> l = [].
Proof. rewrite Nat.eqb_eq. apply length_zero_iff_nil. Qed.

(** A successful [Invoke]: every step before admission succeeded, and the
    state differs by the new mempool entry and the calls. *)
Lemma Invoke_ok_inv (args : InvokeArgs) (vm vm' : VM) (response : InvokeResponse) :
  Invoke args vm = (Ok response, vm') ->
  exists fnArgs byteArgs senderKey t,
    validate args = None /\ parseArgs (Args args) = Ok fnArgs /\
    getByteArgs args = Ok byteArgs /\
    keyFactory_ToPrivateKey (SenderKey args) = Ok (KeySECP256K1R senderKey) /\
    vm_newInvokeTx (ContractID args) (Function args) fnArgs byteArgs
      (SenderNonce args) senderKey = Ok t /\
    response = mkInvokeResponse (tx_ID t) /\
    vm' = mkVM (mempool vm ++ [t]) (DB vm)
            (calls vm ++ [CallLogDebug "in invoke"; CallToPrivateKey (SenderKey args);
                          CallNewInvokeTx; CallNotifyBlockReady]).
Proof.
  rewrite Invoke_run.
  destruct (validate args); [discriminate |].
  destruct (parseArgs (Args args)) as [fnArgs |]; [| discriminate].
  destruct (getByteArgs args) as [byteArgs |]; [| discriminate].
  destruct (keyFactory_ToPrivateKey (SenderKey args)) as [k |]; [| discriminate].
  destruct (asSECP256K1R k) as [senderKey |] eqn:Hk; [| discriminate].
  apply asSECP256K1R_Some in Hk. subst k.
  destruct (vm_newInvokeTx _ _ _ _ _ _) as [t |] eqn:Ht; [| discriminate].
  intros [= <- <-]. exists fnArgs, byteArgs, senderKey, t. repeat split; assumption.
Qed.

(** The request ends in an error at this step, after the calls made so
    far. *)
Ltac stops_here :=
  intros [= _ <-]; eexists; split; [reflexivity | simpl; intuition discriminate].

(** A failed [Invoke]: only calls were made, none of them the
    notification. *)
Lemma Invoke_err_inv (args : InvokeArgs) (vm vm' : VM) (e : error) :
  Invoke args vm = (Err e, vm') ->
  exists cs, vm' = after cs vm /\ ~ In CallNotifyBlockReady cs.
Proof.
  rewrite Invoke_run.
  destruct (validate args).
  { stops_here. }
  destruct (parseArgs (Args args)) as [fnArgs |].
  2: { stops_here. }
  destruct (getByteArgs args) as [byteArgs |].
  2: { stops_here. }
  destruct (keyFactory_ToPrivateKey (SenderKey args)) as [k |].
  2: { stops_here. }
  destruct (asSECP256K1R k) as [senderKey |].
  2: { stops_here. }
  destruct (vm_newInvokeTx _ _ _ _ _ _) as [t |]; [discriminate |].
  stops_here.
Qed.

Lemma CreateContract_ok_inv (args : CreateContractArgs) (vm vm' : VM) (response : ID) :
  CreateContract args vm = (Ok response, vm') ->
  exists senderKey t,
    CC_SenderKey args <> [] /\ Contract args <> [] /\ CC_SenderNonce args <> 0%N /\
    keyFactory_ToPrivateKey (CC_SenderKey args) = Ok (KeySECP256K1R senderKey) /\
    vm_newCreateContractTx (Contract args) (CC_SenderNonce args) senderKey = Ok t /\
    response = tx_ID t /\
    vm' = mkVM (mempool vm ++ [t]) (DB vm)
            (calls vm ++ [CallLogDebug "in createContract";
                          CallToPrivateKey (CC_SenderKey args);
                          CallNewCreateContractTx; CallNotifyBlockReady]).
Proof.
  rewrite CreateContract_run.
  destruct (length (CC_SenderKey args) =? 0)%nat eqn:Hk; [discriminate |].
  destruct (length (Contract args) =? 0)%nat eqn:Hc; [discriminate |].
  destruct (CC_SenderNonce args =? 0)%N eqn:Hn; [discriminate |].
  destruct (keyFactory_ToPrivateKey (CC_SenderKey args)) as [k |]; [| discriminate].
  destruct (asSECP256K1R k) as [senderKey |] eqn:Hs; [| discriminate].
  apply asSECP256K1R_Some in Hs. subst k.
  destruct (vm_newCreateContractTx _ _ _) as [t |] eqn:Ht; [| discriminate].
  intros [= <- <-]. exists senderKey, t.
  repeat split; try assumption.
  - intros E. apply length_eqb_0 in E. congruence.
  - intros E. apply length_eqb_0 in E. congruence.
  - intros E. apply N.eqb_eq in E. congruence.
Qed.

Lemma CreateContract_err_inv (args : CreateContractArgs) (vm vm' : VM) (e : error) :
  CreateContract args vm = (Err e, vm') ->
  exists cs, vm' = after cs vm /\ ~ In CallNotifyBlockReady cs.
Proof.
  rewrite CreateContract_run.
  destruct (length (CC_SenderKey args) =? 0)%nat.
  { stops_here. }
  destruct (length (Contract args) =? 0)%nat.
  { stops_here. }
  destruct (CC_SenderNonce args =? 0)%N.
  { stops_here. }
  destruct (keyFactory_ToPrivateKey (CC_SenderKey args)) as [k |].
  2: { stops_here. }
  destruct (asSECP256K1R k) as [senderKey |].
  2: { stops_here. }
  destruct (vm_newCreateContractTx _ _ _) as [t |]; [discriminate |].
  stops_here.
Qed.

Lemma is_Err_true {A} (r : result A) : is_Err r = true -> exists e, r = Err e.
Proof. destruct r as [a | e]; [discriminate | now exists e]. Qed.

Lemma key_unusable_not_SECP (b : bytes) (senderKey : PrivateKeySECP256K1R) :
  key_unusable b -> keyFactory_ToPrivateKey b <> Ok (KeySECP256K1R senderKey).
Proof. unfold key_unusable. intros Hu E. rewrite E in Hu. discriminate. Qed.

(** C3. For [Invoke] and for [CreateContract]: when a step before
    admission fails on the request, the operation returns an error;
    whenever it returns an error the mempool is as before and the
    scheduler was not notified; and when it succeeds, no step has failed,
    the mempool has grown by exactly the built transaction, and the last
    call made is the notification. *)
Theorem admission_only_after_every_step :
  (forall (args : InvokeArgs) (vm : VM),
     (Invoke_step_fails args -> is_Err (fst (Invoke args vm)) = true) /\
     (is_Err (fst (Invoke args vm)) = true ->
        mempool (snd (Invoke args vm)) = mempool vm /\
        ~ In CallNotifyBlockReady (made vm (snd (Invoke args vm)))) /\
     (forall response, fst (Invoke args vm) = Ok response ->
        ~ Invoke_step_fails args /\
        exists t, mempool (snd (Invoke args vm)) = mempool vm ++ [t] /\
          TxID response = tx_ID t /\
          last (made vm (snd (Invoke args vm))) = Some CallNotifyBlockReady)) /\
  (forall (args : CreateContractArgs) (vm : VM),
     (CreateContract_step_fails args -> is_Err (fst (CreateContract args vm)) = true) /\
     (is_Err (fst (CreateContract args vm)) = true ->
        mempool (snd (CreateContract args vm)) = mempool vm /\
        ~ In CallNotifyBlockReady (made vm (snd (CreateContract args vm)))) /\
     (forall response, fst (CreateContract args vm) = Ok response ->
        ~ CreateContract_step_fails args /\
        exists t, mempool (snd (CreateContract args vm)) = mempool vm ++ [t] /\
          response = tx_ID t /\
          last (made vm (snd (CreateContract args vm))) = Some CallNotifyBlockReady)).
Proof.
  assert (HI : forall args vm response, fst (Invoke args vm) = Ok response ->
            ~ Invoke_step_fails args /\
            exists t, mempool (snd (Invoke args vm)) = mempool vm ++ [t] /\
              TxID response = tx_ID t /\
              last (made vm (snd (Invoke args vm))) = Some CallNotifyBlockReady).
  { intros args vm response Hok.
    destruct (Invoke args vm) as [r vm'] eqn:Hrun. simpl in Hok. subst r.
    destruct (Invoke_ok_inv _ _ _ _ Hrun)
      as (fnArgs & byteArgs & senderKey & t & Hv & Hp & Hb & Hk & Ht & -> & ->).
    split.
    - intros [Hf | [Hf | [Hf | [Hf | (fa & ba & k & Hp' & Hb' & Hk' & Hf)]]]].
      + contradiction.
      + rewrite Hp in Hf. discriminate.
      + rewrite Hb in Hf. discriminate.
      + exact (key_unusable_not_SECP _ _ Hf Hk).
      + rewrite Hp in Hp'. rewrite Hb in Hb'. rewrite Hk in Hk'.
        injection Hp' as <-. injection Hb' as <-. injection Hk' as <-.
        rewrite Ht in Hf. discriminate.
    - exists t. cbn [snd mempool]. rewrite made_append. repeat split. }
  assert (HC : forall args vm response, fst (CreateContract args vm) = Ok response ->
            ~ CreateContract_step_fails args /\
            exists t, mempool (snd (CreateContract args vm)) = mempool vm ++ [t] /\
              response = tx_ID t /\
              last (made vm (snd (CreateContract args vm))) = Some CallNotifyBlockReady).
  { intros args vm response Hok.
    destruct (CreateContract args vm) as [r vm'] eqn:Hrun. simpl in Hok. subst r.
    destruct (CreateContract_ok_inv _ _ _ _ Hrun)
      as (senderKey & t & Hk0 & Hc0 & Hn0 & Hk & Ht & -> & ->).
    split.
    - intros [Hf | [Hf | [Hf | [Hf | (k & Hk' & Hf)]]]]; try contradiction.
      + exact (key_unusable_not_SECP _ _ Hf Hk).
      + rewrite Hk in Hk'. injection Hk' as <-. rewrite Ht in Hf. discriminate.
    - exists t. cbn [snd mempool]. rewrite made_append. repeat split. }
  split.
  - intros args vm. split; [| split].
    + intros Hf. destruct (fst (Invoke args vm)) as [response |] eqn:Hr; [| reflexivity].
      destruct (HI args vm response Hr) as [Hnf _]. contradiction.
    + intros He. destruct (Invoke args vm) as [r vm'] eqn:Hrun.
      apply is_Err_true in He as [e He]. simpl in He. subst r.
      destruct (Invoke_err_inv _ _ _ _ Hrun) as (cs & -> & Hcs).
      cbn [snd]. rewrite made_after. split; [reflexivity | assumption].
    + apply HI.
  - intros args vm. split; [| split].
    + intros Hf. destruct (fst (CreateContract args vm)) as [response |] eqn:Hr;
        [| reflexivity].
      destruct (HC args vm response Hr) as [Hnf _]. contradiction.
    + intros He. destruct (CreateContract args vm) as [r vm'] eqn:Hrun.
      apply is_Err_true in He as [e He]. simpl in He. subst r.
      destruct (CreateContract_err_inv _ _ _ _ Hrun) as (cs & -> & Hcs).
      cbn [snd]. rewrite made_after. split; [reflexivity | assumption].
    + apply HC.
Qed.

(** The request is refused by [validate], and [Invoke] stops there. *)
Lemma Invoke_rejected (args : InvokeArgs) (vm : VM) (err : error) :
  validate args = Some err ->
  Invoke args vm =
    (Err (fmt_Errorf "arguments failed validation: %v" [OpError (Some err)]),
     after [CallLogDebug "in invoke"] vm).
Proof. intros Hv. now rewrite Invoke_run, Hv. Qed.

(** C5, as amended. A request with senderNonce = 0 never passes
    validation, in [Invoke] and in [CreateContract]; the error is the one
    about the nonce whenever the checks made before the nonce check pass
    (a sender key is given; for [CreateContract] also a contract). With
    senderNonce = 1 the error about the nonce is never returned, and
    [validate] accepts the request when its other fields are given. *)
Theorem senderNonce_boundary :
  (forall (args : InvokeArgs) (vm : VM), SenderNonce args = 0%N ->
     exists err, validate args = Some err /\
       fst (Invoke args vm)
         = Err (fmt_Errorf "arguments failed validation: %v" [OpError (Some err)]) /\
       (SenderKey args <> [] -> err = errors_New "'senderNonce' must be at least 1")) /\
  (forall (args : InvokeArgs), SenderNonce args = 1%N ->
     validate args <> Some (errors_New "'senderNonce' must be at least 1") /\
     (SenderKey args <> [] -> Equals (ContractID args) Empty = false ->
      Function args <> ""%string -> validate args = None)) /\
  (forall (args : CreateContractArgs) (vm : VM), CC_SenderNonce args = 0%N ->
     exists err, fst (CreateContract args vm) = Err err /\
       (CC_SenderKey args <> [] -> Contract args <> [] ->
        err = errors_New "argument 'senderNonce' must be at least 1")) /\
  (forall (args : CreateContractArgs) (vm : VM), CC_SenderNonce args = 1%N ->
     fst (CreateContract args vm)
       <> Err (errors_New "argument 'senderNonce' must be at least 1")).
Proof.
  split; [| split; [| split]].
  - intros args vm Hn.
    assert (Hv : exists err, validate args = Some err /\
              (SenderKey args <> [] -> err = errors_New "'senderNonce' must be at least 1")).
    { unfold validate. rewrite Hn. cbn [N.eqb].
      destruct (length (SenderKey args) =? 0)%nat eqn:Hk.
      - apply length_eqb_0 in Hk. eexists. split; [reflexivity | congruence].
      - eexists. split; [reflexivity | reflexivity]. }
    destruct Hv as (err & Hv & Hs). exists err.
    rewrite (Invoke_rejected _ _ _ Hv). repeat split; assumption.
  - intros args Hn. unfold validate. rewrite Hn. cbn [N.eqb].
    split.
    + destruct (length (SenderKey args) =? 0)%nat; [discriminate |].
      destruct (Equals (ContractID args) Empty); [discriminate |].
      destruct (String.eqb (Function args) ""); discriminate.
    + intros Hk Hc Hf. rewrite Hc.
      destruct (length (SenderKey args) =? 0)%nat eqn:Hl.
      { apply length_eqb_0 in Hl. contradiction. }
      destruct (String.eqb_spec (Function args) ""); [contradiction | reflexivity].
  - intros args vm Hn. rewrite CreateContract_run, Hn. cbn [N.eqb].
    destruct (length (CC_SenderKey args) =? 0)%nat eqn:Hk.
    { apply length_eqb_0 in Hk. eexists. split; [reflexivity | congruence]. }
    destruct (length (Contract args) =? 0)%nat eqn:Hc.
    { apply length_eqb_0 in Hc. eexists. split; [reflexivity | congruence]. }
    eexists. split; reflexivity.
  - intros args vm Hn. rewrite CreateContract_run, Hn. cbn [N.eqb].
    destruct (length (CC_SenderKey args) =? 0)%nat; [discriminate |].
    destruct (length (Contract args) =? 0)%nat; [discriminate |].
    destruct (keyFactory_ToPrivateKey (CC_SenderKey args)) as [k |]; [| discriminate].
    destruct (asSECP256K1R k); [| discriminate].
    destruct (vm_newCreateContractTx _ _ _); discriminate.
Qed.

(** C6, as amended. An [Invoke] request whose contractID is the empty
    identifier fails validation: the only call made is the debug log, so
    the key factory is not invoked, and the mempool is as before. The
    error is the one about the contract ID whenever the two checks made
    before it pass (a sender key is given and the nonce is not 0). *)
Theorem Invoke_empty_contractID (args : InvokeArgs) (vm : VM) :
  Equals (ContractID args) Empty = true ->
  exists err, validate args = Some err /\
    fst (Invoke args vm)
      = Err (fmt_Errorf "arguments failed validation: %v" [OpError (Some err)]) /\
    made vm (snd (Invoke args vm)) = [CallLogDebug "in invoke"] /\
    (forall b, ~ In (CallToPrivateKey b) (made vm (snd (Invoke args vm)))) /\
    mempool (snd (Invoke args vm)) = mempool vm /\
    (SenderKey args <> [] -> SenderNonce args <> 0%N ->
     err = errors_New "contractID not specified").
Proof.
  intros Hc.
  assert (Hv : exists err, validate args = Some err /\
            (SenderKey args <> [] -> SenderNonce args <> 0%N ->
             err = errors_New "contractID not specified")).
  { unfold validate. rewrite Hc.
    destruct (length (SenderKey args) =? 0)%nat eqn:Hk.
    { apply length_eqb_0 in Hk. eexists. split; [reflexivity | congruence]. }
    destruct (SenderNonce args =? 0)%N eqn:Hn.
    { apply N.eqb_eq in Hn. eexists. split; [reflexivity | congruence]. }
    eexists. split; reflexivity. }
  destruct Hv as (err & Hv & Hs). exists err.
  rewrite (Invoke_rejected _ _ _ Hv). cbn [fst snd]. rewrite made_after.
  repeat split; try assumption; try reflexivity.
  intros b [E | []]. discriminate.
Qed.

(** C7. A [CreateContract] request with an empty contract fails
    validation: the only call made is the debug log, so neither the key
    factory nor the transaction builder is reached, and nothing is
    admitted. *)
Theorem CreateContract_empty_contract (args : CreateContractArgs) (vm : VM) :
  Contract args = [] ->
  exists err, fst (CreateContract args vm) = Err err /\
    (err = errors_New "argument 'senderKey' not given" \/
     err = errors_New "argument 'contract' not given") /\
    made vm (snd (CreateContract args vm)) = [CallLogDebug "in createContract"] /\
    (forall b, ~ In (CallToPrivateKey b) (made vm (snd (CreateContract args vm)))) /\
    ~ In CallNewCreateContractTx (made vm (snd (CreateContract args vm))) /\
    mempool (snd (CreateContract args vm)) = mempool vm.
Proof.
  intros Hc. rewrite CreateContract_run, Hc. cbn [length Nat.eqb].
  destruct (length (CC_SenderKey args) =? 0)%nat;
    eexists; cbn [fst snd]; rewrite made_after;
    (split; [reflexivity |]); (split; [auto |]);
    repeat split; try reflexivity;
    try (intros b [E | []]; discriminate); intros [E | []]; discriminate.
Qed.

(** C8, as amended. When the key factory rejects the sender-key bytes or
    returns a key that is not a SECP256K1R key, the request fails and
    nothing is admitted. For a request that passes the steps made before
    key parsing (validation; for [Invoke] also the conversion of the
    arguments and the decoding of byteArgs) the error is the key-parse
    error, also when the factory returned a key of another type. *)
Theorem unusable_key_is_fatal :
  (forall (args : InvokeArgs) (vm : VM), key_unusable (SenderKey args) ->
     is_Err (fst (Invoke args vm)) = true /\
     mempool (snd (Invoke args vm)) = mempool vm /\
     (validate args = None -> is_Ok (parseArgs (Args args)) = true ->
      is_Ok (getByteArgs args) = true ->
      fst (Invoke args vm)
        = Err (fmt_Errorf "couldn't parse 'privateKey' to a SECP256K1R private key: %v"
                 [OpError (key_error (SenderKey args))]))) /\
  (forall (args : CreateContractArgs) (vm : VM), key_unusable (CC_SenderKey args) ->
     is_Err (fst (CreateContract args vm)) = true /\
     mempool (snd (CreateContract args vm)) = mempool vm /\
     (CC_SenderKey args <> [] -> Contract args <> [] -> CC_SenderNonce args <> 0%N ->
      fst (CreateContract args vm)
        = Err (fmt_Errorf "couldn't parse 'senderKey' to a SECP256K1R private key: %v"
                 [OpError (key_error (CC_SenderKey args))]))).
Proof.
  split.
  - intros args vm Hu. unfold key_unusable in Hu. unfold key_error.
    rewrite Invoke_run.
    destruct (validate args); [repeat split; discriminate |].
    destruct (parseArgs (Args args)); [| repeat split; discriminate].
    destruct (getByteArgs args); [| repeat split; discriminate].
    destruct (keyFactory_ToPrivateKey (SenderKey args)) as [k |]; [| repeat split].
    rewrite Hu. repeat split.
  - intros args vm Hu. unfold key_unusable in Hu. unfold key_error.
    rewrite CreateContract_run.
    destruct (length (CC_SenderKey args) =? 0)%nat eqn:Hk.
    { apply length_eqb_0 in Hk. repeat split. congruence. }
    destruct (length (Contract args) =? 0)%nat eqn:Hc.
    { apply length_eqb_0 in Hc. repeat split. congruence. }
    destruct (CC_SenderNonce args =? 0)%N eqn:Hn.
    { apply N.eqb_eq in Hn. repeat split. congruence. }
    destruct (keyFactory_ToPrivateKey (CC_SenderKey args)) as [k |]; [| repeat split].
    rewrite Hu. repeat split.
Qed.

End Admission.

(** ** Transaction lookup *)

Section Lookup.
Context `{Collaborators}.

(** [GetTx], step by step. *)
Lemma GetTx_run (args : GetTxArgs) (vm : VM) :
  GetTx args vm =
    match vm_getTx (DB vm) (GetTx_ID args) with
    | None =>
        (Err (fmt_Errorf "couldn't find tx with ID %s" [OpID (GetTx_ID args)]),
         after [CallGetTx (GetTx_ID args)] vm)
    | Some t => (Ok (mkGetTxResponse t), after [CallGetTx (GetTx_ID args)] vm)
    end.
Proof.
  unfold GetTx, getTx, record, bind, ret, fail, after. cbn [mempool DB calls].
  destruct (vm_getTx (DB vm) (GetTx_ID args)); reflexivity.
Qed.




End Lookup.

(** ** The service on explicit requests *)

(** A request refused at the nonce check leaves a mempool of one entry
    as it is; a valid request adds its transaction, and its response
    carries that transaction's identifier. *)
Lemma admission_only_after_every_step_witness :
  mempool (snd (@Invoke amd64 emptyCodec demo
                  (mkInvokeArgs id7 "f" key32 0 [] VNil)
                  (@mkVM demo [mkDemoTx Empty 1] ∅ [])))
    = [mkDemoTx Empty 1] /\
  exists t, mempool (snd (@Invoke amd64 emptyCodec demo
                            (mkInvokeArgs id7 "f" key32 1 [] VNil)
                            (@mkVM demo [mkDemoTx Empty 1] ∅ [])))
              = [mkDemoTx Empty 1] ++ [t] /\ id7 = demoID t.
Proof.
  destruct (@admission_only_after_every_step amd64 emptyCodec demo) as [HI _].
  split.
  - destruct (HI (mkInvokeArgs id7 "f" key32 0 [] VNil)
                 (@mkVM demo [mkDemoTx Empty 1] ∅ [])) as (_ & Herr & _).
    exact (proj1 (Herr eq_refl)).
  - destruct (HI (mkInvokeArgs id7 "f" key32 1 [] VNil)
                 (@mkVM demo [mkDemoTx Empty 1] ∅ [])) as (_ & _ & Hok).
    destruct (Hok (mkInvokeResponse id7) eq_refl) as (_ & t & Hm & Hid & _).
    exists t. split; assumption.
Defined.

(** senderNonce = 0 with a sender key: the error is the one about the
    nonce. senderNonce = 1: it is not. *)
Lemma senderNonce_boundary_witness :
  (exists err, validate (mkInvokeArgs id7 "f" key32 0 [] VNil) = Some err /\
     err = errors_New "'senderNonce' must be at least 1") /\
  validate (mkInvokeArgs id7 "f" key32 1 [] VNil) = None.
Proof.
  destruct (@senderNonce_boundary amd64 emptyCodec demo) as (H0 & H1 & _).
  split.
  - destruct (H0 (mkInvokeArgs id7 "f" key32 0 [] VNil) vm0 eq_refl) as (err & Hv & _ & He).
    exists err. split; [assumption | apply He; discriminate].
  - destruct (H1 (mkInvokeArgs id7 "f" key32 1 [] VNil) eq_refl) as [_ Hv].
    apply Hv; [discriminate | reflexivity | discriminate].
Defined.

(** C5 as stated fails when an earlier check fires: with senderNonce = 0
    and no sender key, [Invoke] answers with the error about the sender
    key; with senderNonce = 0 and no contract, [CreateContract] answers
    with the error about the contract. *)
Lemma senderNonce_zero_other_error :
  fst (@Invoke amd64 emptyCodec demo (mkInvokeArgs id7 "f" [] 0 [] VNil) vm0)
    = Err (fmt_Errorf "arguments failed validation: %v"
             [OpError (Some (errors_New "argument 'senderKey' not provided"))]) /\
  validate (mkInvokeArgs id7 "f" [] 0 [] VNil)
    <> Some (errors_New "'senderNonce' must be at least 1") /\
  fst (@CreateContract demo (mkCreateContractArgs [] key32 0) vm0)
    = Err (errors_New "argument 'contract' not given") /\
  fst (@CreateContract demo (mkCreateContractArgs [] key32 0) vm0)
    <> Err (errors_New "argument 'senderNonce' must be at least 1").
Proof. repeat split; discriminate. Qed.

(** An empty contractID in an otherwise valid request. *)
Lemma Invoke_empty_contractID_witness :
  exists err, validate (mkInvokeArgs Empty "f" key32 1 [] VNil) = Some err /\
    err = errors_New "contractID not specified" /\
    made vm0 (snd (@Invoke amd64 emptyCodec demo
                     (mkInvokeArgs Empty "f" key32 1 [] VNil) vm0))
      = [CallLogDebug "in invoke"].
Proof.
  destruct (@Invoke_empty_contractID amd64 emptyCodec demo
              (mkInvokeArgs Empty "f" key32 1 [] VNil) vm0 eq_refl)
    as (err & Hv & _ & Hm & _ & _ & He).
  exists err. split; [assumption |]. split; [apply He; discriminate | assumption].
Defined.

(** C6 as stated fails when an earlier check fires: with an empty
    contractID and senderNonce = 0 the error is the one about the nonce. *)
Lemma Invoke_empty_contractID_other_error :
  Equals (ContractID (mkInvokeArgs Empty "f" key32 0 [] VNil)) Empty = true /\
  fst (@Invoke amd64 emptyCodec demo (mkInvokeArgs Empty "f" key32 0 [] VNil) vm0)
    = Err (fmt_Errorf "arguments failed validation: %v"
             [OpError (Some (errors_New "'senderNonce' must be at least 1"))]) /\
  validate (mkInvokeArgs Empty "f" key32 0 [] VNil)
    <> Some (errors_New "contractID not specified").
Proof. repeat split; discriminate. Qed.

(** An empty contract with a usable key and nonce. *)
Lemma CreateContract_empty_contract_witness :
  exists err, fst (@CreateContract demo (mkCreateContractArgs [] key32 1) vm0) = Err err /\
    made vm0 (snd (@CreateContract demo (mkCreateContractArgs [] key32 1) vm0))
      = [CallLogDebug "in createContract"].
Proof.
  destruct (@CreateContract_empty_contract demo (mkCreateContractArgs [] key32 1) vm0 eq_refl)
    as (err & He & _ & Hm & _).
  exists err. split; assumption.
Defined.

(** A one-byte key, which the factory returns as a key of another scheme,
    and a two-byte key, which it rejects, in otherwise valid requests. *)
Lemma unusable_key_is_fatal_witness :
  fst (@Invoke amd64 emptyCodec demo (mkInvokeArgs id7 "f" [Byte.x01] 1 [] VNil) vm0)
    = Err (fmt_Errorf "couldn't parse 'privateKey' to a SECP256K1R private key: %v"
             [OpError None]) /\
  fst (@CreateContract demo (mkCreateContractArgs [Byte.x00] [Byte.x01; Byte.x01] 1) vm0)
    = Err (fmt_Errorf "couldn't parse 'senderKey' to a SECP256K1R private key: %v"
             [OpError (Some (errors_New "couldn't parse private key"))]).
Proof.
  destruct (@unusable_key_is_fatal amd64 emptyCodec demo) as [HI HC].
  split.
  - destruct (HI (mkInvokeArgs id7 "f" [Byte.x01] 1 [] VNil) vm0 eq_refl) as (_ & _ & Hk).
    exact (Hk eq_refl eq_refl eq_refl).
  - destruct (HC (mkCreateContractArgs [Byte.x00] [Byte.x01; Byte.x01] 1) vm0 I)
      as (_ & _ & Hk).
    apply Hk; discriminate.
Defined.

(** C8 as stated fails when an earlier step fails: with a key the factory
    rejects and senderNonce = 0, [Invoke] answers with the validation
    error, and the factory is not called. *)
Lemma unusable_key_other_error :
  is_Err (keyFactory_ToPrivateKey (Collaborators := demo) [Byte.x01; Byte.x01]) = true /\
  fst (@Invoke amd64 emptyCodec demo
         (mkInvokeArgs id7 "f" [Byte.x01; Byte.x01] 0 [] VNil) vm0)
    = Err (fmt_Errorf "arguments failed validation: %v"
             [OpError (Some (errors_New "'senderNonce' must be at least 1"))]) /\
  calls (snd (@Invoke amd64 emptyCodec demo
                (mkInvokeArgs id7 "f" [Byte.x01; Byte.x01] 0 [] VNil) vm0))
    = [CallLogDebug "in invoke"].
Proof. repeat split. Qed.


(** * Further properties of the service *)

(** ** The coercion of one argument *)

Lemma in_range_32_64 (z : Z) : in_range 32 z = true -> in_range 64 z = true.
Proof.
  unfold in_range. intros Hr. apply andb_prop in Hr as [Hl Hu].
  apply Z.leb_le in Hl. apply Z.ltb_lt in Hu.
  change (2 ^ (32 - 1)) with 2147483648 in *.
  change (2 ^ (64 - 1)) with 9223372036854775808.
  apply andb_true_intro. split; [apply Z.leb_le | apply Z.ltb_lt]; lia.
Qed.

Lemma wrap_fixed_iff (w z : Z) : 0 < w -> wrap w z = z <-> in_range w z = true.
Proof.
  intros Hw. split.
  - intros E. rewrite <- E. now apply wrap_in_range.
  - now apply wrap_small.
Qed.

Section CoercionMore.
Context `{GoRuntime}.

(** The cases in which [toFnArg] succeeds, and with what. *)
Lemma toFnArg_Ok_inv (arg : ArgAPI) (v : value) :
  toFnArg arg = Ok v ->
  (ToLower (Type_ arg) = "int32"%string /\
   ((exists z, Value arg = VInt32 z /\ v = VInt32 z) \/
    (exists z, Value arg = VInt64 z /\ v = VInt32 (wrap 32 z)) \/
    (exists f, (Value arg = VFloat32 f \/ Value arg = VFloat64 f) /\
               v = VInt32 (float_to_int 32 f)))) \/
  (ToLower (Type_ arg) = "int64"%string /\
   ((exists z, Value arg = VInt32 z /\ v = VInt64 z) \/
    (exists z, Value arg = VInt64 z /\ v = VInt64 z) \/
    (exists f, (Value arg = VFloat32 f \/ Value arg = VFloat64 f) /\
               v = VInt64 (float_to_int 64 f)))).
Proof.
  unfold toFnArg.
  destruct (String.eqb_spec (ToLower (Type_ arg)) "int32") as [E32 | N32].
  - intros Hok. left. split; [assumption |].
    destruct (Value arg); try discriminate; injection Hok as <-; eauto 6.
  - destruct (String.eqb_spec (ToLower (Type_ arg)) "int64") as [E64 | N64];
      [| discriminate].
    intros Hok. right. split; [assumption |].
    destruct (Value arg); try discriminate; injection Hok as <-; eauto 6.
Qed.

(** X1. Whatever [toFnArg] returns is an integer of the declared width:
    a [VInt32] within 32 bits under a tag that lower-cases to int32, a
    [VInt64] within 64 bits under one that lower-cases to int64, provided
    the value it was given is itself within the bounds of its Go type. *)
Theorem toFnArg_result_fits (arg : ArgAPI) (v : value) :
  well_formed (Value arg) -> toFnArg arg = Ok v ->
  well_formed v /\
  ((ToLower (Type_ arg) = "int32"%string /\ exists z, v = VInt32 z) \/
   (ToLower (Type_ arg) = "int64"%string /\ exists z, v = VInt64 z)).
Proof.
  intros Hwf Hok.
  destruct (toFnArg_Ok_inv arg v Hok)
    as [[Ht [(z & Hv & ->) | [(z & Hv & ->) | (f & Hv & ->)]]]
       | [Ht [(z & Hv & ->) | [(z & Hv & ->) | (f & Hv & ->)]]]];
    try rewrite Hv in Hwf; cbn [well_formed] in *.
  - split; [assumption | left; eauto].
  - split; [apply wrap_in_range; lia | left; eauto].
  - split; [apply float_to_int_in_range; lia | left; eauto].
  - split; [now apply in_range_32_64 | right; eauto].
  - split; [assumption | right; eauto].
  - split; [apply float_to_int_in_range; lia | right; eauto].
Qed.

(** X2. Coercion is idempotent: an argument that carries the result of
    [toFnArg] under the same tag is returned unchanged. *)
Theorem toFnArg_idempotent (arg : ArgAPI) (v : value) :
  toFnArg arg = Ok v -> toFnArg (mkArgAPI (Type_ arg) v) = Ok v.
Proof.
  intros Hok.
  destruct (toFnArg_Ok_inv arg v Hok)
    as [[Ht [(z & Hv & ->) | [(z & Hv & ->) | (f & Hv & ->)]]]
       | [Ht [(z & Hv & ->) | [(z & Hv & ->) | (f & Hv & ->)]]]];
    unfold toFnArg; cbn [Type_ Value]; rewrite Ht; reflexivity.
Qed.

(** X3. Narrowing a 64-bit integer under tag int32 and widening the
    result under tag int64 gives the integer back exactly when it lies
    within 32 bits; outside, the round trip returns another number. *)
Theorem narrow_then_widen (t32 t64 : string) (z : Z) :
  ToLower t32 = "int32"%string -> ToLower t64 = "int64"%string ->
  exists v, toFnArg (mkArgAPI t32 (VInt64 z)) = Ok v /\
    toFnArg (mkArgAPI t64 v) = Ok (VInt64 (wrap 32 z)) /\
    (toFnArg (mkArgAPI t64 v) = Ok (VInt64 z) <-> in_range 32 z = true).
Proof.
  intros H32 H64. exists (VInt32 (wrap 32 z)).
  unfold toFnArg. cbn [Type_ Value]. rewrite H32, H64. cbn [String.eqb Ascii.eqb Bool.eqb].
  split; [reflexivity |]. split; [reflexivity |].
  rewrite <- (wrap_fixed_iff 32 z) by lia.
  split; [intros [= E]; assumption | intros ->; reflexivity].
Qed.

End CoercionMore.

Lemma toFnArg_result_fits_witness :
  well_formed (VInt32 (-1294967296)) /\
  @toFnArg amd64 (mkArgAPI "int32" (VInt64 3000000000)) = Ok (VInt32 (-1294967296)).
Proof.
  assert (Hok : @toFnArg amd64 (mkArgAPI "int32" (VInt64 3000000000))
                = Ok (VInt32 (-1294967296))) by reflexivity.
  split; [| exact Hok].
  exact (proj1 (@toFnArg_result_fits amd64 (mkArgAPI "int32" (VInt64 3000000000))
                  (VInt32 (-1294967296)) eq_refl Hok)).
Defined.

Lemma toFnArg_idempotent_witness :
  @toFnArg amd64 (mkArgAPI "INT32" (VInt32 (-2))) = Ok (VInt32 (-2)).
Proof.
  exact (@toFnArg_idempotent amd64 (mkArgAPI "INT32" (VFloat64 fm2_75)) (VInt32 (-2)) eq_refl).
Defined.

Lemma narrow_then_widen_witness :
  exists v, @toFnArg amd64 (mkArgAPI "int32" (VInt64 3000000000)) = Ok v /\
    @toFnArg amd64 (mkArgAPI "Int64" v) = Ok (VInt64 (-1294967296)).
Proof.
  destruct (@narrow_then_widen amd64 "int32" "Int64" 3000000000 eq_refl eq_refl)
    as (v & H1 & H2 & _).
  exists v. split; assumption.
Defined.

(** ** The accepted type tags *)

(** A character lower-cases to [l] only if it is [l] or the upper-case
    letter 32 places below it. *)
Lemma lower_ascii_preimage (c l : ascii) :
  lower_ascii c = l ->
  c = l \/ ((65 <= nat_of_ascii c <= 90)%nat /\ nat_of_ascii l = (nat_of_ascii c + 32)%nat).
Proof.
  intros <-. unfold lower_ascii.
  destruct ((65 <=? nat_of_ascii c) && (nat_of_ascii c <=? 90))%nat eqn:Hu; [| now left].
  apply andb_prop in Hu as [Hl Hh]. apply Nat.leb_le in Hl, Hh.
  right. split; [lia |]. apply nat_ascii_embedding. lia.
Qed.

Lemma lower_ascii_digit (c l : ascii) :
  (nat_of_ascii l < 97)%nat -> lower_ascii c = l -> c = l.
Proof. intros Hl Hc. destruct (lower_ascii_preimage c l Hc) as [E | [Hu E]]; [assumption | lia]. Qed.

Lemma lower_ascii_letter_inv (c l u : ascii) :
  nat_of_ascii l = (nat_of_ascii u + 32)%nat -> lower_ascii c = l -> c = l \/ c = u.
Proof.
  intros Hlu Hc. destruct (lower_ascii_preimage c l Hc) as [E | [Hu E]]; [now left |].
  right. rewrite <- (ascii_nat_embedding c), <- (ascii_nat_embedding u). f_equal. lia.
Qed.

Lemma ToLower_int64_variants `{GoRuntime} (c1 c2 c3 : ascii) :
  (c1 = "i" \/ c1 = "I")%char -> (c2 = "n" \/ c2 = "N")%char -> (c3 = "t" \/ c3 = "T")%char ->
  ToLower (String c1 (String c2 (String c3 "64"))) = "int64"%string.
Proof.
  intros H1 H2 H3. unfold ToLower.
  replace (isASCII _) with true
    by (destruct H1 as [-> | ->], H2 as [-> | ->], H3 as [-> | ->]; reflexivity).
  cbn [map_ascii].
  rewrite (lower_ascii_letter c1 "i" "I"), (lower_ascii_letter c2 "n" "N"),
    (lower_ascii_letter c3 "t" "T") by (reflexivity || assumption).
  reflexivity.
Qed.

Section Tags.
Context `{GoRuntime}.

Lemma ToLower_spelling (d1 d2 : ascii) (t : string) :
  (nat_of_ascii d1 < 97)%nat -> (nat_of_ascii d2 < 97)%nat ->
  isASCII t = true ->
  ToLower t = String "i" (String "n" (String "t" (String d1 (String d2 "")))) ->
  int_tag_spelling (String d1 (String d2 "")) t.
Proof.
  intros Hd1 Hd2 Ha. unfold ToLower. rewrite Ha.
  destruct t as [| c1 [| c2 [| c3 [| c4 [| c5 [| c6 t]]]]]]; cbn [map_ascii];
    try discriminate.
  intros [= H1 H2 H3 H4 H5].
  apply (lower_ascii_digit c4 d1 Hd1) in H4. apply (lower_ascii_digit c5 d2 Hd2) in H5.
  subst c4 c5. exists c1, c2, c3. split; [reflexivity |].
  split; [| split]; eapply lower_ascii_letter_inv; try eassumption; reflexivity.
Qed.

(** X4. Over ASCII, the tags [toFnArg] accepts are exactly the spellings
    of int32 and int64 with the letters in either case: a tag lower-cases
    to int32 (int64) if and only if it is spelled so, and every other
    ASCII tag is refused with the fixed error, whatever the value. *)
Theorem accepted_tags (t : string) :
  isASCII t = true ->
  (ToLower t = "int32"%string <-> int_tag_spelling "32" t) /\
  (ToLower t = "int64"%string <-> int_tag_spelling "64" t) /\
  (forall v, ~ int_tag_spelling "32" t -> ~ int_tag_spelling "64" t ->
     toFnArg (mkArgAPI t v) = Err (errors_New "arg type must be one of: int32, int64")).
Proof.
  intros Ha.
  assert (H32 : ToLower t = "int32"%string <-> int_tag_spelling "32" t).
  { split.
    - apply ToLower_spelling; [apply Nat.ltb_lt; reflexivity .. | assumption].
    - intros (c1 & c2 & c3 & -> & H1 & H2 & H3). now apply ToLower_int32_variants. }
  assert (H64 : ToLower t = "int64"%string <-> int_tag_spelling "64" t).
  { split.
    - apply ToLower_spelling; [apply Nat.ltb_lt; reflexivity .. | assumption].
    - intros (c1 & c2 & c3 & -> & H1 & H2 & H3). now apply ToLower_int64_variants. }
  split; [assumption |]. split; [assumption |].
  intros v N32 N64. unfold toFnArg. cbn [Type_].
  destruct (String.eqb_spec (ToLower t) "int32") as [E | _]; [now apply H32 in E |].
  destruct (String.eqb_spec (ToLower t) "int64") as [E | _]; [now apply H64 in E |].
  reflexivity.
Qed.

End Tags.

Lemma accepted_tags_witness :
  int_tag_spelling "64" "iNt64" /\
  @toFnArg amd64 (mkArgAPI "int 32" (VInt32 1))
    = Err (errors_New "arg type must be one of: int32, int64").
Proof.
  destruct (@accepted_tags amd64 "iNt64" eq_refl) as (_ & H64 & _).
  destruct (@accepted_tags amd64 "int 32" eq_refl) as (_ & _ & Hno).
  split; [now apply H64 |].
  apply Hno; intros (c1 & c2 & c3 & E & _); discriminate E.
Defined.

(** ** The conversion of the argument list *)

Section ArgumentList.
Context `{GoRuntime}.

Lemma parseArgs_Ok_Forall2 (l : list ArgAPI) (vs : list value) :
  parseArgs l = Ok vs -> Forall2 (fun arg v => toFnArg arg = Ok v) l vs.
Proof.
  revert vs. induction l as [| arg rest IH]; intros vs; cbn [parseArgs].
  - intros [= <-]. constructor.
  - destruct (toFnArg arg) as [v |] eqn:Hv; [| discriminate].
    destruct (parseArgs rest) as [vs' |]; [| discriminate].
    intros [= <-]. constructor; [assumption | now apply IH].
Qed.

Lemma parseArgs_Err_text (l : list ArgAPI) (e : error) :
  parseArgs l = Err e -> error_text e = "couldn't parse arg '%+v': %s"%string.
Proof.
  induction l as [| arg rest IH]; cbn [parseArgs]; [discriminate |].
  destruct (toFnArg arg) as [v |]; [| intros [= <-]; reflexivity].
  destruct (parseArgs rest) as [vs |]; [discriminate |].
  intros [= <-]. now apply IH.
Qed.

(** X5. [parseArgs] succeeds exactly when [toFnArg] succeeds on every
    argument, and then returns the converted values one for one, in the
    order of the arguments. *)
Theorem parseArgs_Ok_iff (l : list ArgAPI) (vs : list value) :
  parseArgs l = Ok vs <-> Forall2 (fun arg v => toFnArg arg = Ok v) l vs.
Proof.
  split; [apply parseArgs_Ok_Forall2 |].
  intros Hf. induction Hf as [| arg v rest vs Hv _ IH]; cbn [parseArgs].
  - reflexivity.
  - now rewrite Hv, IH.
Qed.

(** X6. [parseArgs] fails exactly when some argument is refused, and the
    error is the one of the first such argument: it carries that argument
    (its declared type and its value) and the error [toFnArg] gave. *)
Theorem parseArgs_Err_iff (l : list ArgAPI) (e : error) :
  parseArgs l = Err e <->
  exists pre arg post err,
    l = pre ++ arg :: post /\
    Forall (fun a => is_Ok (toFnArg a) = true) pre /\
    toFnArg arg = Err err /\
    e = fmt_Errorf "couldn't parse arg '%+v': %s" [OpArg arg; OpError (Some err)].
Proof.
  revert e. induction l as [| a rest IH]; intros e; cbn [parseArgs].
  - split; [discriminate |].
    intros (pre & arg & post & err & Hl & _). destruct pre; discriminate.
  - destruct (toFnArg a) as [v |] eqn:Hv.
    + assert (Hrest : parseArgs rest = Err e <->
                match parseArgs rest with Ok vs => Ok (v :: vs) | Err e' => Err e' end
                  = Err e)
        by (destruct (parseArgs rest); split; congruence).
      rewrite <- Hrest, IH. split.
      * intros (pre & arg & post & err & -> & Hpre & Harg & ->).
        exists (a :: pre), arg, post, err.
        split; [reflexivity |]. split; [| split; [assumption | reflexivity]].
        constructor; [now rewrite Hv | assumption].
      * intros (pre & arg & post & err & Hl & Hpre & Harg & ->).
        destruct pre as [| p pre]; cbn in Hl; injection Hl as -> ->.
        -- congruence.
        -- inversion Hpre; subst. exists pre, arg, post, err.
           split; [reflexivity |]. split; [assumption |]. split; [assumption | reflexivity].
    + split.
      * intros [= <-]. exists [], a, rest, e0.
        split; [reflexivity |]. split; [constructor |]. split; [assumption | reflexivity].
      * intros (pre & arg & post & err & Hl & Hpre & Harg & ->).
        destruct pre as [| p pre]; cbn in Hl; injection Hl as -> ->.
        -- congruence.
        -- inversion Hpre; subst. rewrite Hv in *. discriminate.
Qed.

End ArgumentList.

Lemma parseArgs_Err_witness :
  @parseArgs amd64 [mkArgAPI "int32" (VInt64 5); mkArgAPI "int64" (VString "x");
                    mkArgAPI "bool" VNil]
    = Err (fmt_Errorf "couldn't parse arg '%+v': %s"
             [OpArg (mkArgAPI "int64" (VString "x"));
              OpError (Some (fmt_Errorf "value '%v' is not convertible to int64"
                               [OpValue (VString "x")]))]).
Proof.
  apply (@parseArgs_Err_iff amd64).
  exists [mkArgAPI "int32" (VInt64 5)], (mkArgAPI "int64" (VString "x")),
    [mkArgAPI "bool" VNil],
    (fmt_Errorf "value '%v' is not convertible to int64" [OpValue (VString "x")]).
  split; [reflexivity |]. split; [repeat constructor |]. split; reflexivity.
Defined.

(** ** The errors of the byte-argument decoder *)

Section DecodingErrors.
Context `{GoRuntime} `{Formatting}.

(** X7. Every error of [getByteArgs] has the same fixed text and no
    operand: the error of the JSON encoder or of the CB58 codec is
    dropped, not passed on. *)
Theorem getByteArgs_error_is_fixed (args : InvokeArgs) (e : error) :
  getByteArgs args = Err e ->
  error_text e = "expected 'byteArgs' to be JSON or base58 formatted bytes but was neither"%string /\
  error_operands e = [].
Proof.
  unfold getByteArgs.
  destruct (ByteArgs args) as [| | | | | | s | | |];
    try (intros [= <-]; split; reflexivity).
  - destruct (CB58_FromString s); [discriminate | intros [= <-]; split; reflexivity].
  - destruct (encjson_Marshal _); [discriminate | intros [= <-]; split; reflexivity].
  - destruct (encjson_Marshal _); [discriminate | intros [= <-]; split; reflexivity].
Qed.

End DecodingErrors.

Lemma getByteArgs_error_is_fixed_witness :
  exists e, @getByteArgs amd64 emptyCodec (mkInvokeArgs id7 "f" key32 1 [] (VString "0OIl"))
              = Err e /\ error_operands e = [].
Proof.
  eexists. split; [reflexivity |].
  exact (proj2 (@getByteArgs_error_is_fixed amd64 emptyCodec
                  (mkInvokeArgs id7 "f" key32 1 [] (VString "0OIl")) _ eq_refl)).
Defined.

(** ** The operations, one request at a time *)

Section Operations.
Context `{GoRuntime} `{Formatting} `{Collaborators}.

Lemma Equals_Empty_false (id : ID) : Equals id Empty = false <-> id <> Empty.
Proof.
  unfold Equals. rewrite bool_decide_eq_false. destruct id as [b]. cbn.
  split; intros Hn E; apply Hn; [now injection E | now rewrite E].
Qed.

Lemma validate_None_iff (args : InvokeArgs) :
  validate args = None <->
  SenderKey args <> [] /\ SenderNonce args <> 0%N /\
  ContractID args <> Empty /\ Function args <> ""%string.
Proof.
  unfold validate.
  destruct (length (SenderKey args) =? 0)%nat eqn:Hk.
  { apply length_eqb_0 in Hk. split; [discriminate | intros (Hn & _); contradiction]. }
  assert (Hk' : SenderKey args <> []).
  { intros E. apply length_eqb_0 in E. congruence. }
  destruct (SenderNonce args =? 0)%N eqn:Hn.
  { apply N.eqb_eq in Hn. split; [discriminate | intros (_ & Hn' & _); contradiction]. }
  apply N.eqb_neq in Hn.
  destruct (Equals (ContractID args) Empty) eqn:Hc.
  { split; [discriminate |]. intros (_ & _ & Hc' & _).
    apply Equals_Empty_false in Hc'. congruence. }
  apply Equals_Empty_false in Hc.
  destruct (String.eqb_spec (Function args) "") as [Hf | Hf].
  { split; [discriminate | intros (_ & _ & _ & Hf'); contradiction]. }
  split; [intros _; repeat split; assumption | reflexivity].
Qed.

(** X8. A transaction admitted by [Invoke] comes from a complete request:
    a sender key, a nonce of at least 1, a contract ID other than the
    empty one and a function name were all given; it is the transaction
    the builder returned for exactly these fields, the arguments converted
    one for one in order, the decoded byteArgs and the parsed key; and its
    identifier is the one in the response. *)
Theorem Invoke_admits_built_tx (args : InvokeArgs) (vm vm' : VM) (response : InvokeResponse) :
  Invoke args vm = (Ok response, vm') ->
  (SenderKey args <> [] /\ (1 <= SenderNonce args)%N /\
   ContractID args <> Empty /\ Function args <> ""%string) /\
  exists fnArgs byteArgs senderKey t,
    Forall2 (fun arg v => toFnArg arg = Ok v) (Args args) fnArgs /\
    getByteArgs args = Ok byteArgs /\
    keyFactory_ToPrivateKey (SenderKey args) = Ok (KeySECP256K1R senderKey) /\
    vm_newInvokeTx (ContractID args) (Function args) fnArgs byteArgs
      (SenderNonce args) senderKey = Ok t /\
    last (mempool vm') = Some t /\ TxID response = tx_ID t.
Proof.
  intros Hrun.
  destruct (Invoke_ok_inv _ _ _ _ Hrun)
    as (fnArgs & byteArgs & senderKey & t & Hv & Hp & Hb & Hk & Ht & -> & ->).
  apply validate_None_iff in Hv as (Hkey & Hnonce & Hc & Hf).
  split; [repeat split; try assumption; lia |].
  exists fnArgs, byteArgs, senderKey, t.
  split; [now apply parseArgs_Ok_Forall2 |].
  repeat split; try assumption.
  cbn [mempool]. apply last_snoc.
Qed.

(** X9. The calls of one [Invoke] follow a fixed protocol: they are an
    initial part of the sequence debug log, key factory on the request's
    sender key, builder, notification; the sequence is complete exactly
    when the operation succeeds. The same holds for [CreateContract] with
    its own log line and builder. So the key factory and the builder are
    called at most once, the factory on no other bytes, and nothing
    follows the notification. *)
Theorem calls_follow_protocol :
  (forall (args : InvokeArgs) (vm : VM),
     let full := [CallLogDebug "in invoke"; CallToPrivateKey (SenderKey args);
                  CallNewInvokeTx; CallNotifyBlockReady] in
     made vm (snd (Invoke args vm)) `prefix_of` full /\
     (made vm (snd (Invoke args vm)) = full <-> is_Ok (fst (Invoke args vm)) = true)) /\
  (forall (args : CreateContractArgs) (vm : VM),
     let full := [CallLogDebug "in createContract"; CallToPrivateKey (CC_SenderKey args);
                  CallNewCreateContractTx; CallNotifyBlockReady] in
     made vm (snd (CreateContract args vm)) `prefix_of` full /\
     (made vm (snd (CreateContract args vm)) = full <->
      is_Ok (fst (CreateContract args vm)) = true)).
Proof.
  split.
  - intros args vm full. subst full. rewrite Invoke_run.
    destruct (validate args);
      [| destruct (parseArgs (Args args));
         [destruct (getByteArgs args);
            [destruct (keyFactory_ToPrivateKey (SenderKey args)) as [k |];
               [destruct (asSECP256K1R k);
                  [destruct (vm_newInvokeTx _ _ _ _ _ _) |] |] |] |]];
      cbn [fst snd]; rewrite ?made_after, ?made_append;
      (split; [eexists; reflexivity | split; intros E; first [discriminate E | reflexivity]]).
  - intros args vm full. subst full. rewrite CreateContract_run.
    destruct (length (CC_SenderKey args) =? 0)%nat;
      [| destruct (length (Contract args) =? 0)%nat;
         [| destruct (CC_SenderNonce args =? 0)%N;
            [| destruct (keyFactory_ToPrivateKey (CC_SenderKey args)) as [k |];
               [destruct (asSECP256K1R k);
                  [destruct (vm_newCreateContractTx _ _ _) |] |]]]];
      cbn [fst snd]; rewrite ?made_after, ?made_append;
      (split; [eexists; reflexivity | split; intros E; first [discriminate E | reflexivity]]).
Qed.

(** X10. The text of an error of [Invoke] tells the step that failed, and
    every step before it succeeded: validation; else the conversion of an
    argument; else the decoding of byteArgs; else key parsing, on a key
    that is unusable; else the build, on a usable key. No other error is
    returned. *)
Theorem Invoke_error_tells_step (args : InvokeArgs) (vm : VM) (e : error) :
  fst (Invoke args vm) = Err e ->
  match failed_step e with
  | Some Validation => validate args <> None
  | Some ArgumentCoercion =>
      validate args = None /\ is_Err (parseArgs (Args args)) = true
  | Some ByteArgsDecoding =>
      validate args = None /\ is_Ok (parseArgs (Args args)) = true /\
      is_Err (getByteArgs args) = true
  | Some KeyParsing =>
      validate args = None /\ is_Ok (parseArgs (Args args)) = true /\
      is_Ok (getByteArgs args) = true /\ key_unusable (SenderKey args)
  | Some TxBuild =>
      validate args = None /\ is_Ok (parseArgs (Args args)) = true /\
      is_Ok (getByteArgs args) = true /\ ~ key_unusable (SenderKey args)
  | None => False
  end.
Proof.
  rewrite Invoke_run. unfold key_unusable.
  destruct (validate args); [intros [= <-]; cbn; discriminate |].
  destruct (parseArgs (Args args)) as [fnArgs | e'] eqn:Hp.
  2: { intros [= <-]. unfold failed_step. rewrite (parseArgs_Err_text _ _ Hp).
       cbn. split; reflexivity. }
  destruct (getByteArgs args) as [byteArgs |];
    [| intros [= <-]; cbn; repeat split].
  destruct (keyFactory_ToPrivateKey (SenderKey args)) as [k |];
    [| intros [= <-]; cbn; repeat split].
  destruct (asSECP256K1R k) eqn:Hk; [| intros [= <-]; cbn; repeat split].
  destruct (vm_newInvokeTx _ _ _ _ _ _); [discriminate |].
  intros [= <-]. cbn. repeat split. discriminate.
Qed.

End Operations.

Lemma Invoke_admits_built_tx_witness :
  exists t, @vm_newInvokeTx demo id7 "f" [VInt32 5] [] 1%N (mkSECP256K1R key32) = Ok t /\
    id7 = @tx_ID demo t.
Proof.
  destruct (@Invoke_admits_built_tx amd64 emptyCodec demo
              (mkInvokeArgs id7 "f" key32 1 [mkArgAPI "int32" (VInt64 5)] VNil) vm0
              _ (mkInvokeResponse id7) eq_refl)
    as (_ & fnArgs & byteArgs & senderKey & t & Hf & Hb & Hk & Ht & _ & Hid).
  exists t. split; [| exact Hid].
  inversion Hf as [| ? v ? vs Hv Hrest]; subst. inversion Hrest; subst.
  injection Hv as <-. injection Hb as <-. injection Hk as <-. exact Ht.
Defined.

Lemma Invoke_error_tells_step_witness :
  is_Ok (@parseArgs amd64 [mkArgAPI "int32" (VInt64 5)]) = true /\
  is_Err (@getByteArgs amd64 emptyCodec
            (mkInvokeArgs id7 "f" key32 1 [mkArgAPI "int32" (VInt64 5)] (VBool true))) = true.
Proof.
  destruct (@Invoke_error_tells_step amd64 emptyCodec demo
              (mkInvokeArgs id7 "f" key32 1 [mkArgAPI "int32" (VInt64 5)] (VBool true))
              vm0 _ eq_refl) as (_ & Hp & Hb).
  split; assumption.
Defined.

(** ** Requests served one after the other *)

Section Serving.
Context `{GoRuntime} `{Formatting} `{Collaborators}.

Lemma effect_after (cs : list call) (vm : VM) :
  ~ In CallNotifyBlockReady cs -> effect [] vm (after cs vm).
Proof.
  intros Hn. split; [reflexivity |]. exists cs, [].
  cbn [after calls mempool]. rewrite app_nil_r.
  repeat split. now apply count_occ_not_In.
Qed.

Lemma serve_effect (r : request) (vm : VM) :
  effect (match fst (serve r vm) with Some id => [id] | None => [] end) vm (snd (serve r vm)).
Proof.
  destruct r as [args | args | args]; cbn [serve].
  - destruct (Invoke args vm) as [[response | e] vm'] eqn:Hrun; cbn [fst snd].
    + destruct (Invoke_ok_inv _ _ _ _ Hrun)
        as (fnArgs & byteArgs & senderKey & t & _ & _ & _ & _ & _ & -> & ->).
      split; [reflexivity |]. eexists _, [t]. cbn [calls mempool]. repeat split.
    + destruct (Invoke_err_inv _ _ _ _ Hrun) as (cs & -> & Hcs). now apply effect_after.
  - destruct (CreateContract args vm) as [[response | e] vm'] eqn:Hrun; cbn [fst snd].
    + destruct (CreateContract_ok_inv _ _ _ _ Hrun)
        as (senderKey & t & _ & _ & _ & _ & _ & -> & ->).
      split; [reflexivity |]. eexists _, [t]. cbn [calls mempool]. repeat split.
    + destruct (CreateContract_err_inv _ _ _ _ Hrun) as (cs & -> & Hcs).
      now apply effect_after.
  - cbn [fst]. rewrite GetTx_run.
    destruct (vm_getTx (DB vm) (GetTx_ID args)); cbn [snd];
      apply effect_after; intros [E | []]; discriminate.
Qed.

Lemma effect_trans (ids1 ids2 : list ID) (vm vm1 vm2 : VM) :
  effect ids1 vm vm1 -> effect ids2 vm1 vm2 -> effect (ids1 ++ ids2) vm vm2.
Proof.
  intros (Hdb1 & cs1 & ts1 & Hc1 & Hm1 & Hi1 & Hn1) (Hdb2 & cs2 & ts2 & Hc2 & Hm2 & Hi2 & Hn2).
  split; [congruence |]. exists (cs1 ++ cs2), (ts1 ++ ts2).
  rewrite Hc2, Hc1, Hm2, Hm1, map_app, Hi1, Hi2, count_occ_app, length_app, Hn1, Hn2.
  rewrite <- !app_assoc. repeat split.
Qed.

Lemma serveAll_effect (rs : list request) (vm : VM) :
  effect (fst (serveAll rs vm)) vm (snd (serveAll rs vm)).
Proof.
  revert vm. induction rs as [| r rs IH]; intros vm; cbn [serveAll].
  - cbn [fst snd]. split; [reflexivity |]. exists [], []. now rewrite !app_nil_r.
  - pose proof (serve_effect r vm) as Hr.
    destruct (serve r vm) as [o vm1]. cbn [fst snd] in Hr.
    pose proof (IH vm1) as Hrs.
    destruct (serveAll rs vm1) as [ids vm2]. cbn [fst snd] in *.
    pose proof (effect_trans _ _ _ _ _ Hr Hrs) as Ht.
    destruct o; exact Ht.
Qed.

(** X11. Admission is first in, first out, with nothing lost or added:
    after any sequence of requests the mempool is the mempool before
    followed by new transactions whose identifiers are, in order, the
    identifiers handed back to the callers; and the scheduler was notified
    once for each of them. *)
Theorem admission_is_fifo (rs : list request) (vm : VM) :
  exists ts,
    mempool (snd (serveAll rs vm)) = mempool vm ++ ts /\
    map tx_ID ts = fst (serveAll rs vm) /\
    count_occ call_eq_dec (made vm (snd (serveAll rs vm))) CallNotifyBlockReady
      = length ts.
Proof.
  destruct (serveAll_effect rs vm) as (_ & cs & ts & Hc & Hm & Hi & Hn).
  exists ts. repeat split; try assumption.
  unfold made. rewrite Hc, drop_app_length. exact Hn.
Qed.

(** X12. The service never writes the store: after any sequence of
    requests the store is as before, and so [GetTx] answers every query as
    it did before. A transaction admitted by [Invoke] or [CreateContract]
    does not become retrievable by that alone. *)
Theorem lookup_unaffected_by_requests (rs : list request) (vm : VM) (args : GetTxArgs) :
  DB (snd (serveAll rs vm)) = DB vm /\
  fst (GetTx args (snd (serveAll rs vm))) = fst (GetTx args vm).
Proof.
  destruct (serveAll_effect rs vm) as (Hdb & _).
  split; [assumption |]. rewrite !GetTx_run, Hdb.
  destruct (vm_getTx (DB vm) (GetTx_ID args)); reflexivity.
Qed.

End Serving.

(** A valid [Invoke], one refused for its nonce, a lookup and a valid
    [CreateContract], served in this order. *)
Lemma admission_is_fifo_witness :
  exists ts,
    mempool (snd (@serveAll amd64 emptyCodec demo
                    [ReqInvoke (mkInvokeArgs id7 "f" key32 1 [] VNil);
                     ReqInvoke (mkInvokeArgs id7 "f" key32 0 [] VNil);
                     ReqGetTx (mkGetTxArgs id7);
                     ReqCreateContract (mkCreateContractArgs [Byte.x00] key32 2)] vm0)) = ts /\
    map demoID ts = [id7; mkID [Byte.x00]].
Proof.
  destruct (@admission_is_fifo amd64 emptyCodec demo
              [ReqInvoke (mkInvokeArgs id7 "f" key32 1 [] VNil);
               ReqInvoke (mkInvokeArgs id7 "f" key32 0 [] VNil);
               ReqGetTx (mkGetTxArgs id7);
               ReqCreateContract (mkCreateContractArgs [Byte.x00] key32 2)] vm0)
    as (ts & Hm & Hi & _).
  exists ts. split; [exact Hm | exact Hi].
Defined.

Section Creation.
Context `{Collaborators}.

(** X13. A transaction admitted by [CreateContract] comes from a complete
    request (a sender key, a contract and a nonce of at least 1 were
    given); it is the transaction the builder returned for exactly the
    contract bytes, the nonce and the parsed key of the request, and the
    identifier handed back is its identifier. *)
Theorem CreateContract_admits_built_tx
    (args : CreateContractArgs) (vm vm' : VM) (response : ID) :
  CreateContract args vm = (Ok response, vm') ->
  (CC_SenderKey args <> [] /\ Contract args <> [] /\ (1 <= CC_SenderNonce args)%N) /\
  exists senderKey t,
    keyFactory_ToPrivateKey (CC_SenderKey args) = Ok (KeySECP256K1R senderKey) /\
    vm_newCreateContractTx (Contract args) (CC_SenderNonce args) senderKey = Ok t /\
    last (mempool vm') = Some t /\ response = tx_ID t.
Proof.
  intros Hrun.
  destruct (CreateContract_ok_inv _ _ _ _ Hrun)
    as (senderKey & t & Hk0 & Hc0 & Hn0 & Hk & Ht & -> & ->).
  split; [repeat split; try assumption; lia |].
  exists senderKey, t. repeat split; try assumption.
  cbn [mempool]. apply last_snoc.
Qed.

End Creation.

Lemma CreateContract_admits_built_tx_witness :
  exists t, @vm_newCreateContractTx demo [Byte.x00] 2%N (mkSECP256K1R key32) = Ok t /\
    mkID [Byte.x00] = @tx_ID demo t.
Proof.
  destruct (@CreateContract_admits_built_tx demo
              (mkCreateContractArgs [Byte.x00] key32 2) vm0 _ (mkID [Byte.x00]) eq_refl)
    as (_ & senderKey & t & Hk & Ht & _ & Hid).
  exists t. injection Hk as <-. split; [exact Ht | exact Hid].
Defined.
